(** * faasmctl: request building, map serialisation and the submit/poll client

    A shallow embedding of [faasmctl/util/batch.py] and
    [faasmctl/util/invoke.py], and the properties the protocol description
    states about them.

    Conventions.
    - A Python [int] is a [Z]; a loop index produced by [range] is a [nat].
    - A Python [str] used as map payload is its sequence of Unicode code
      points ([pystr]); [len] of a [str] counts code points.
    - A [bytes]/[bytearray] value is a [list Z] of values in [0, 256).
    - A Python exception is a constructor of [exn]; a function that can
      raise returns [result].
    - URLs, host names and the texts of plain HTTP bodies are
      [String.string].
    - A call that talks to the planner runs against the list of responses
      the endpoint will give, and yields its outcome together with the
      trace of what it posted, slept and printed. *)

From Stdlib Require Import ZArith List String Bool Lia QArith_base.
Import ListNotations.

Local Open Scope string_scope.
Local Open Scope list_scope.
Local Open Scope Z_scope.

(** ** Python values and exceptions *)

Module Py.

Inductive exn : Type :=
| AssertionError (msg : string)
| TypeError
| IndexError
| KeyError (key : string)
| StructError
| UnicodeEncodeError
| RuntimeError (msg : string)
| UnboundLocalError (name : string)
| ParseError.

Inductive result (A : Type) : Type :=
| Ok (a : A)
| Raise (e : exn).

Arguments Ok {A} a.
Arguments Raise {A} e.

Definition bind {A B : Type} (r : result A) (k : A -> result B) : result B :=
  match r with
  | Ok a => k a
  | Raise e => Raise e
  end.

(** [assert cond, msg] *)
Definition assert (cond : bool) (msg : string) : result unit :=
  if cond then Ok tt else Raise (AssertionError msg).

(** A Python [str]: its code points, in order. *)
Definition pystr : Type := list Z.

(** [len(x)] of a sequence, as a Python [int]. *)
Definition len {A : Type} (l : list A) : Z := Z.of_nat (List.length l).

(** [l[i]] for an index [i] produced by [range]: [IndexError] out of range. *)
Definition getitem {A : Type} (l : list A) (i : nat) : result A :=
  match nth_error l i with
  | Some a => Ok a
  | None => Raise IndexError
  end.

(** [l[i].field = v]: the element at [i] is replaced by [f] of itself;
    [IndexError] out of range. *)
Fixpoint setitem {A : Type} (l : list A) (i : nat) (f : A -> A) : result (list A) :=
  match l, i with
  | [], _ => Raise IndexError
  | a :: l', O => Ok (f a :: l')
  | a :: l', S i' =>
      match setitem l' i' f with
      | Ok l'' => Ok (a :: l'')
      | Raise e => Raise e
      end
  end.

(** [range(n)] and [range(a, b)]: empty when the bound is not above the start. *)
Definition range (n : Z) : list nat := seq 0 (Z.to_nat n).
Definition range2 (a b : Z) : list nat := seq (Z.to_nat a) (Z.to_nat (b - a)).

(** A [for] loop whose body may raise: the state is threaded through the
    iterations in order and the first exception ends the loop. *)
Fixpoint for_each {I S : Type} (body : I -> S -> result S) (idxs : list I) (s : S)
  : result S :=
  match idxs with
  | [] => Ok s
  | i :: idxs' =>
      match body i s with
      | Ok s' => for_each body idxs' s'
      | Raise e => Raise e
      end
  end.

End Py.

Import Py.

Declare Scope result_scope.
Delimit Scope result_scope with res.
Notation "x <- c1 ;; c2" := (Py.bind c1 (fun x => c2))
  (at level 61, c1 at next level, right associativity) : result_scope.
Local Open Scope result_scope.

(** ** [str.encode('utf-8')] *)

Module Utf8.

(** One code point to its UTF-8 bytes. Surrogates (U+D800..U+DFFF) are
    refused by the codec; a [str] holds no code point above U+10FFFF. *)
Definition encode_char (c : Z) : result (list Z) :=
  if c <? 0 then Raise UnicodeEncodeError
  else if c <? 128 then Ok [c]
  else if c <? 2048 then Ok [192 + c / 64; 128 + c mod 64]
  else if (55296 <=? c) && (c <? 57344) then Raise UnicodeEncodeError
  else if c <? 65536 then
    Ok [224 + c / 4096; 128 + (c / 64) mod 64; 128 + c mod 64]
  else if c <? 1114112 then
    Ok [240 + c / 262144; 128 + (c / 4096) mod 64; 128 + (c / 64) mod 64;
        128 + c mod 64]
  else Raise UnicodeEncodeError.

Fixpoint encode (s : pystr) : result (list Z) :=
  match s with
  | [] => Ok []
  | c :: s' =>
      b <- encode_char c ;;
      bs <- encode s' ;;
      Ok (b ++ bs)
  end.

(** Number of bytes of the UTF-8 encoding (0 when the codec refuses). *)
Definition byteLen (s : pystr) : Z :=
  match encode s with
  | Ok bs => len bs
  | Raise _ => 0
  end.

Definition is_cont (b : Z) : bool := (128 <=? b) && (b <? 192).

(** Strict UTF-8 decoding ([bytes.decode('utf-8')]): shortest forms only,
    no surrogates, nothing above U+10FFFF. *)
Fixpoint decode (bs : list Z) : option pystr :=
  match bs with
  | [] => Some []
  | b0 :: r0 =>
      if (0 <=? b0) && (b0 <? 128) then option_map (cons b0) (decode r0)
      else if (192 <=? b0) && (b0 <? 224) then
        match r0 with
        | b1 :: r1 =>
            let c := (b0 - 192) * 64 + (b1 - 128) in
            if is_cont b1 && (128 <=? c) then option_map (cons c) (decode r1)
            else None
        | _ => None
        end
      else if (224 <=? b0) && (b0 <? 240) then
        match r0 with
        | b1 :: b2 :: r2 =>
            let c := (b0 - 224) * 4096 + (b1 - 128) * 64 + (b2 - 128) in
            if is_cont b1 && is_cont b2 && (2048 <=? c)
               && negb ((55296 <=? c) && (c <? 57344))
            then option_map (cons c) (decode r2)
            else None
        | _ => None
        end
      else if (240 <=? b0) && (b0 <? 248) then
        match r0 with
        | b1 :: b2 :: b3 :: r3 =>
            let c := (b0 - 240) * 262144 + (b1 - 128) * 4096
                     + (b2 - 128) * 64 + (b3 - 128) in
            if is_cont b1 && is_cont b2 && is_cont b3
               && (65536 <=? c) && (c <? 1114112)
            then option_map (cons c) (decode r3)
            else None
        | _ => None
        end
      else None
  end.

(** Text made of ASCII characters only: one byte per character. *)
Definition ascii_only (s : pystr) : Prop := Forall (fun c => 0 <= c < 128) s.

(** Text the codec accepts: Unicode scalar values. *)
Definition scalar (c : Z) : Prop :=
  0 <= c < 1114112 /\ ~ (55296 <= c < 57344).

End Utf8.

(** ** [struct.pack('I', n)] *)

Module Struct.

(** The format ['I'] has no byte-order prefix: the four bytes are in the
    byte order of the machine that runs the client ([sys.byteorder]). *)
Inductive byteorder : Type := little | big.

Definition is_byte (b : Z) : Prop := 0 <= b < 256.

Definition le32 (n : Z) : list Z :=
  [n mod 256; (n / 256) mod 256; (n / 65536) mod 256; (n / 16777216) mod 256].

Definition pack_I (native : byteorder) (n : Z) : result (list Z) :=
  if (0 <=? n) && (n <=? 4294967295) then
    Ok (match native with
        | little => le32 n
        | big => rev (le32 n)
        end)
  else Raise StructError.

(** Reading a little-endian uint32 off the front of a buffer. *)
Definition read_le32 (bs : list Z) : option (Z * list Z) :=
  match bs with
  | b0 :: b1 :: b2 :: b3 :: r =>
      Some (b0 + 256 * b1 + 65536 * b2 + 16777216 * b3, r)
  | _ => None
  end.

End Struct.

(** ** The protobuf messages the client builds and reads

    The generated protobuf module is not part of the sources at hand; the
    records carry the fields the protocol description enumerates, and a field
    that was never set holds the protobuf default (0, the empty string, no
    bytes). *)

Module Msg.
Record t : Type := mk {
  appId : Z;
  user : string;
  function : string;
  mpiWorldSize : Z;
  groupIdx : Z;
  executedHost : string;
  inputData : list Z;
  chainedId : Z
}.

Definition set_groupIdx (v : Z) (m : t) : t :=
  mk (appId m) (user m) (function m) (mpiWorldSize m) v (executedHost m)
     (inputData m) (chainedId m).
Definition set_executedHost (v : string) (m : t) : t :=
  mk (appId m) (user m) (function m) (mpiWorldSize m) (groupIdx m) v
     (inputData m) (chainedId m).
Definition set_inputData (v : list Z) (m : t) : t :=
  mk (appId m) (user m) (function m) (mpiWorldSize m) (groupIdx m)
     (executedHost m) v (chainedId m).
Definition set_chainedId (v : Z) (m : t) : t :=
  mk (appId m) (user m) (function m) (mpiWorldSize m) (groupIdx m)
     (executedHost m) (inputData m) v.
End Msg.

Module Req.
Record t : Type := mk {
  appId : Z;
  user : string;
  function : string;
  messages : list Msg.t
}.

Definition set_appId (v : Z) (r : t) : t := mk v (user r) (function r) (messages r).
Definition set_messages (v : list Msg.t) (r : t) : t :=
  mk (appId r) (user r) (function r) v.
(** [req.messages.append(m)] *)
Definition append (m : Msg.t) (r : t) : t := set_messages (messages r ++ [m]) r.
End Req.

Module Status.
Record t : Type := mk {
  appId : Z;
  finished : bool;
  expectedNumMessages : Z;
  messageResults : list Msg.t
}.

Definition set_expectedNumMessages (v : Z) (s : t) : t :=
  mk (appId s) (finished s) v (messageResults s).
End Status.

(** The dict-shaped templates. [msg_dict] is read with [msg_dict["user"]],
    [msg_dict["function"]] and ["mpi_world_size" in msg_dict], so the
    presence of each key matters; [req_dict] is only handed to [ParseDict],
    for which an absent key and the default value are the same. *)
Record msg_dict : Type := {
  md_user : option string;
  md_function : option string;
  md_mpi_world_size : option Z
}.

Record req_dict : Type := {
  rd_user : string;
  rd_function : string
}.

Definition from_option {A : Type} (d : A) (o : option A) : A :=
  match o with
  | Some a => a
  | None => d
  end.

(** ** [faasmctl/util/batch.py] *)

Module Batch.

(** [ParseDict(req_dict, BatchExecuteRequest())]: a request with the
    template's header fields and no message. (The templates of the sources
    are [{"user": ..., "function": ...}]; a template is taken to hold no
    message of its own.) *)
Definition ParseDict (d : req_dict) : Req.t :=
  Req.mk 0 (rd_user d) (rd_function d) [].

(** Modelled from the spec: [faasmctl.util.message.message_factory] is not
    among the sources. It "copies [messageTemplate]" into a message "bound to
    that [appId]": the template's fields, every other field at its default,
    and [appId] set to the given identifier. *)
Definition message_factory (d : msg_dict) (app_id : Z) : Msg.t :=
  Msg.mk app_id (from_option EmptyString (md_user d))
         (from_option EmptyString (md_function d))
         (from_option 0 (md_mpi_world_size d)) 0 EmptyString [] 0.

(** A map handed over as input: the items of the dict in iteration order. *)
Definition map_data : Type := list (pystr * pystr).

Section Native.

(** [sys.byteorder] of the machine running the client. *)
Variable native : Struct.byteorder.

Definition serialize_string (buffer : list Z) (string : pystr) : result (list Z) :=
  n <- Struct.pack_I native (len string) ;;
  let buffer := buffer ++ n in
  b <- Utf8.encode string ;;
  Ok (buffer ++ b).

Definition serialize_map (map_data : map_data) : result (list Z) :=
  let buffer := [] in
  n <- Struct.pack_I native (len map_data) ;;
  let buffer := buffer ++ n in
  for_each
    (fun (item : pystr * pystr) buffer =>
       let (key, value) := item in
       buffer <- serialize_string buffer key ;;
       serialize_string buffer value)
    map_data buffer.

(** [generate_gid()] draws from an entropy source; the drawn identifier is
    the argument [gid]. *)
Definition batch_exec_factory (gid : Z) (req_dict : req_dict) (msg_dict : msg_dict)
  (num_messages : Z) : Req.t :=
  let req := ParseDict req_dict in
  let req := Req.set_appId gid req in
  fold_left
    (fun req (_ : nat) => Req.append (message_factory msg_dict (Req.appId req)) req)
    (range num_messages) req.

Definition batch_exec_input_factory (req_dict : req_dict) (app_id : Z)
  (msg_dict : msg_dict) (num_messages : Z)
  (input_list : option (list map_data)) (chained_id_list : option (list Z))
  : result Req.t :=
  let req := ParseDict req_dict in
  let req := Req.set_appId app_id req in
  _ <- match input_list with
       | Some l =>
           assert (len l =? num_messages)
                  "Number of input data should match number of messages"
       | None => Ok tt
       end ;;
  _ <- match chained_id_list with
       | Some l =>
           assert (len l =? num_messages)
                  "Number of chainedIds should match number of messages"
       | None => Ok tt
       end ;;
  for_each
    (fun (i : nat) req =>
       let req := Req.append (message_factory msg_dict (Req.appId req)) req in
       req <- match input_list with
              | Some l =>
                  input <- getitem l i ;;
                  serialized_input <- serialize_map input ;;
                  msgs <- setitem (Req.messages req) i
                                  (Msg.set_inputData serialized_input) ;;
                  Ok (Req.set_messages msgs req)
              | None => Ok req
              end ;;
       chained_id <- match chained_id_list with
                     | Some l => getitem l i
                     | None => Raise TypeError
                     end ;;
       msgs <- setitem (Req.messages req) i (Msg.set_chainedId chained_id) ;;
       Ok (Req.set_messages msgs req))
    (range num_messages) req.

End Native.

End Batch.

(** ** What the request builders are to produce

    Message [i] of a bound request, as the protocol description words it: a
    copy of the template bound to the [appId], with [inputData] the encoding
    of [inputs[i]] when inputs are supplied and [chainedId] the [i]-th
    chain-linkage identifier. *)

Module Built.

Definition bound_message (native : Struct.byteorder) (msg_dict : msg_dict)
  (app_id : Z) (input_list : option (list Batch.map_data))
  (chained_id_list : option (list Z)) (i : nat) (m : Msg.t) : Prop :=
  exists chained_id,
    (exists l, chained_id_list = Some l /\ nth_error l i = Some chained_id) /\
    match input_list with
    | Some inputs =>
        exists input data,
          nth_error inputs i = Some input /\
          Batch.serialize_map native input = Ok data /\
          m = Msg.set_chainedId chained_id
                (Msg.set_inputData data (Batch.message_factory msg_dict app_id))
    | None =>
        m = Msg.set_chainedId chained_id (Batch.message_factory msg_dict app_id)
    end.

(** All messages of a request carry the request's [appId]. *)
Definition share_appId (req : Req.t) : Prop :=
  Forall (fun m => Msg.appId m = Req.appId req) (Req.messages req).

(** The arity check of the bound builder, as the description words it. *)
Definition arity_ok {A : Type} (l : option (list A)) (count : Z) : Prop :=
  match l with
  | Some l => len l = count
  | None => True
  end.

End Built.

(** ** The decoder of the map format *)

Module MapDecode.

(** Modelled from the spec: [decode(bytes) -> mapping], the structural
    inverse of the layout [[uint32 pairCount]] then, per entry,
    [[uint32 keyByteLen][key bytes][uint32 valueByteLen][value bytes]], with
    little-endian lengths counted in bytes. The client sources hold no
    decoder. A buffer that ends early, holds bytes that are not UTF-8, or has
    bytes left over has no decoding. *)
Definition read_string (bs : list Z) : option (pystr * list Z) :=
  match Struct.read_le32 bs with
  | Some (n, r) =>
      if n <=? len r then
        match Utf8.decode (firstn (Z.to_nat n) r) with
        | Some s => Some (s, skipn (Z.to_nat n) r)
        | None => None
        end
      else None
  | None => None
  end.

Fixpoint read_pairs (count : nat) (bs : list Z)
  : option (Batch.map_data * list Z) :=
  match count with
  | O => Some ([], bs)
  | S count' =>
      match read_string bs with
      | Some (k, r) =>
          match read_string r with
          | Some (v, r') =>
              match read_pairs count' r' with
              | Some (m, r'') => Some ((k, v) :: m, r'')
              | None => None
              end
          | None => None
          end
      | None => None
      end
  end.

Definition decode (bs : list Z) : option Batch.map_data :=
  match Struct.read_le32 bs with
  | Some (n, r) =>
      match read_pairs (Z.to_nat n) r with
      | Some (m, []) => Some m
      | _ => None
      end
  | None => None
  end.

End MapDecode.

(** ** The map format as the protocol description words it

    The second definition of the encoder, to be compared with
    [Batch.serialize_map]: a little-endian uint32 pair count, then per entry
    a little-endian uint32 key length, the UTF-8 key bytes, a little-endian
    uint32 value length and the UTF-8 value bytes, every length being the
    number of encoded bytes of the string. *)

Module Layout.

Definition field (s : pystr) : result (list Z) :=
  b <- Utf8.encode s ;;
  Ok (Struct.le32 (len b) ++ b).

Fixpoint entries (m : Batch.map_data) : result (list Z) :=
  match m with
  | [] => Ok []
  | (k, v) :: m' =>
      ck <- field k ;;
      cv <- field v ;;
      r <- entries m' ;;
      Ok (ck ++ cv ++ r)
  end.

Definition encode (m : Batch.map_data) : result (list Z) :=
  r <- entries m ;;
  Ok (Struct.le32 (len m) ++ r).

(** [4 + Σ (4 + byteLen(k) + 4 + byteLen(v))] without the leading 4. *)
Fixpoint payload_size (m : Batch.map_data) : Z :=
  match m with
  | [] => 0
  | (k, v) :: m' => (4 + Utf8.byteLen k + 4 + Utf8.byteLen v) + payload_size m'
  end.

(** A string both encoders accept with a length that fits the uint32
    fields: Unicode scalar values, fewer than 2^32 encoded bytes. *)
Definition encodable (s : pystr) : Prop :=
  Forall Utf8.scalar s /\ Utf8.byteLen s <= 4294967295.

Definition encodable_map (m : Batch.map_data) : Prop :=
  len m <= 4294967295 /\
  Forall (fun kv => encodable (fst kv) /\ encodable (snd kv)) m.

(** Every string of the map has fewer than 2^32 encoded bytes. *)
Definition sizes_fit (m : Batch.map_data) : Prop :=
  Forall (fun kv => Utf8.byteLen (fst kv) <= 4294967295
                    /\ Utf8.byteLen (snd kv) <= 4294967295) m.

Definition ascii_map (m : Batch.map_data) : Prop :=
  Forall (fun kv => Utf8.ascii_only (fst kv) /\ Utf8.ascii_only (snd kv)) m.

(** What [Batch.serialize_map] writes for one string and for the entries:
    the length field holds [len(string)], the number of characters. *)
Definition written_string (native : Struct.byteorder) (s : pystr)
  : result (list Z) :=
  n <- Struct.pack_I native (len s) ;;
  b <- Utf8.encode s ;;
  Ok (n ++ b).

Fixpoint written_entries (native : Struct.byteorder) (m : Batch.map_data)
  : result (list Z) :=
  match m with
  | [] => Ok []
  | (k, v) :: m' =>
      ck <- written_string native k ;;
      cv <- written_string native v ;;
      r <- written_entries native m' ;;
      Ok (ck ++ cv ++ r)
  end.

(** Encoding with the client's code and decoding with the format's decoder. *)
Definition roundtrip (native : Struct.byteorder) (m : Batch.map_data)
  : result (option Batch.map_data) :=
  buf <- Batch.serialize_map native m ;;
  Ok (MapDecode.decode buf).

(** The mapping of the one-character key U+00E9 (two UTF-8 bytes) to the
    empty string. *)
Definition e_acute_map : Batch.map_data := [([233], [])].

End Layout.

(** ** [faasmctl/util/invoke.py] *)

Module Invoke.

(** Modelled from the spec: [faasmctl.util.planner.prepare_planner_msg] is not
    among the sources. Each call "carries a wire envelope binding an
    operation name to a serialized payload"; the envelope is kept as the
    operation with the message it serialises ([MessageToJson] of a request
    or of a status). *)
Inductive planner_msg : Type :=
| EXECUTE_BATCH (req : Req.t)
| EXECUTE_BATCH_STATUS (ber_status : Status.t)
| PRELOAD_SCHEDULING_DECISION (req : Req.t).

(** The body of a response: a text that the protobuf JSON parser turns into
    a status (kept as that status), or any other text. The two sentinel
    texts are not JSON, so a body equal to one of them is a [Plain] one. *)
Inductive body : Type :=
| Plain (s : string)
| StatusJson (ber_status : Status.t).

Record http_response : Type := {
  status_code : Z;
  text : body
}.

(** [response.text == s] for a text [s] that is not JSON. *)
Definition text_eq (b : body) (s : string) : bool :=
  match b with
  | Plain t => String.eqb t s
  | StatusJson _ => false
  end.

(** [Parse(response.text, BatchExecuteRequestStatus(), True)] *)
Definition Parse (b : body) : result Status.t :=
  match b with
  | StatusJson ber_status => Ok ber_status
  | Plain _ => Raise ParseError
  end.

(** What the client does to the outside world, in order. *)
Inductive log_line : Type :=
| NoAvailableHostsRetrying (attempt num_retries : Z)
| PostRequestFailed (code : Z) (text : body)
| ErrorPreloading (code : Z) (text : body).

Inductive event : Type :=
| EvPost (url : string) (data : planner_msg)
| EvSleep (secs : Q)
| EvPrint (line : log_line).

(** A call runs against the responses the endpoint will give, in order. It
    returns, raises, or is still waiting for a response when the responses
    run out. *)
Inductive outcome (A : Type) : Type :=
| Returned (a : A)
| Raised (e : exn)
| Waiting.

Arguments Returned {A} a.
Arguments Raised {A} e.
Arguments Waiting {A}.

Record run (A : Type) : Type := {
  out : outcome A;
  trace : list event;
  unread : list http_response
}.

Arguments out {A} r.
Arguments trace {A} r.
Arguments unread {A} r.

Definition io (A : Type) : Type := list http_response -> run A.

Definition ret {A : Type} (a : A) : io A :=
  fun script => {| out := Returned a; trace := []; unread := script |}.

Definition raise {A : Type} (e : exn) : io A :=
  fun script => {| out := Raised e; trace := []; unread := script |}.

Definition emit {A : Type} (evs : list event) (r : run A) : run A :=
  {| out := out r; trace := evs ++ trace r; unread := unread r |}.

Definition bind {A B : Type} (m : io A) (k : A -> io B) : io B :=
  fun script =>
    let r := m script in
    match out r with
    | Returned a => emit (trace r) (k a (unread r))
    | Raised e => {| out := Raised e; trace := trace r; unread := unread r |}
    | Waiting => {| out := Waiting; trace := trace r; unread := unread r |}
    end.

Definition lift {A : Type} (r : result A) : io A :=
  match r with
  | Ok a => ret a
  | Raise e => raise e
  end.

(** [post(url, data=..., timeout=None)]: blocks until the endpoint answers. *)
Definition post (url : string) (data : planner_msg) : io http_response :=
  fun script =>
    match script with
    | response :: script' =>
        {| out := Returned response; trace := [EvPost url data]; unread := script' |}
    | [] => {| out := Waiting; trace := [EvPost url data]; unread := [] |}
    end.

Definition sleep (secs : Q) : io unit :=
  fun script => {| out := Returned tt; trace := [EvSleep secs]; unread := script |}.

Definition print (line : log_line) : io unit :=
  fun script => {| out := Returned tt; trace := [EvPrint line]; unread := script |}.

Declare Scope io_scope.
Delimit Scope io_scope with io.
Notation "x <- c1 ;; c2" := (bind c1 (fun x => c2))
  (at level 61, c1 at next level, right associativity) : io_scope.
Notation "c1 ;; c2" := (bind c1 (fun _ => c2))
  (at level 61, right associativity) : io_scope.

(** The admission loop shared by [invoke_and_await] and
    [invoke_without_wait]:

      for i in range(num_retries):
          response = post(url, data=json_msg, timeout=None)
          if response.status_code == 500 and response.text == "No available hosts":
              print(...); sleep(sleep_period_secs); continue
          break

    [response] is the loop's view of the variable of that name: unbound
    before the first POST. *)
Fixpoint admission_loop (url : string) (json_msg : planner_msg)
  (num_retries : Z) (sleep_period_secs : Q)
  (idxs : list nat) (response : option http_response) : io (option http_response) :=
  match idxs with
  | [] => ret response
  | i :: idxs' =>
      (response <- post url json_msg ;;
       if (status_code response =? 500)
          && text_eq (text response) "No available hosts"
       then
         print (NoAvailableHostsRetrying (Z.of_nat i + 1) num_retries) ;;
         sleep sleep_period_secs ;;
         admission_loop url json_msg num_retries sleep_period_secs idxs'
                        (Some response)
       else ret (Some response))%io
  end.

(** Reading a local variable that may not have been assigned. *)
Definition read_local {A : Type} (name : string) (v : option A) : io A :=
  match v with
  | Some a => ret a
  | None => raise (UnboundLocalError name)
  end.

(** The polling loop of [invoke_and_await] and of [query_result]:

      while True:
          sleep(poll_period)
          response = post(url, data=json_msg, timeout=None)
          if response.status_code != 200:
              if response.text == "App not registered in results":
                  pass
              else:
                  print(...)
                  break
          else:
              ber_status = Parse(response.text, BatchExecuteRequestStatus(), True)
              if ber_status.finished:
                  break

    Each iteration reads one response, so the loop is a recursion on the
    responses to come; [ber_status] is the variable of that name on entry
    to the iteration, and the loop yields its value on exit. *)
Fixpoint poll_loop (poll_period : Q) (url : string) (json_msg : planner_msg)
  (ber_status : option Status.t) (script : list http_response)
  : run (option Status.t) :=
  match script with
  | [] =>
      {| out := Waiting;
         trace := [EvSleep poll_period; EvPost url json_msg];
         unread := [] |}
  | response :: script' =>
      emit [EvSleep poll_period; EvPost url json_msg]
        (if negb (status_code response =? 200) then
           if text_eq (text response) "App not registered in results" then
             poll_loop poll_period url json_msg ber_status script'
           else
             emit [EvPrint (PostRequestFailed (status_code response) (text response))]
                  (ret ber_status script')
         else
           match Parse (text response) with
           | Ok ber_status =>
               if Status.finished ber_status then ret (Some ber_status) script'
               else poll_loop poll_period url json_msg (Some ber_status) script'
           | Raise e => raise e script'
           end)
  end.

Definition invoke_and_await (url : string) (json_msg : planner_msg)
  (expected_num_messages : Z) : io Status.t :=
  let poll_period := (2 # 1)%Q in
  let num_retries := 10 in
  let sleep_period_secs := (1 # 2)%Q in
  (response <- admission_loop url json_msg num_retries sleep_period_secs
                              (range num_retries) None ;;
   response <- read_local "response" response ;;
   (if negb (status_code response =? 200)
    then print (PostRequestFailed (status_code response) (text response))
    else ret tt) ;;
   ber_status <- lift (Parse (text response)) ;;
   let ber_status := Status.set_expectedNumMessages expected_num_messages ber_status in
   let json_msg := EXECUTE_BATCH_STATUS ber_status in
   ber_status <- poll_loop poll_period url json_msg (Some ber_status) ;;
   read_local "ber_status" ber_status)%io.

Definition invoke_without_wait (url : string) (json_msg : planner_msg) : io unit :=
  let num_retries := 100 in
  let sleep_period_secs := (1 # 2)%Q in
  (response <- admission_loop url json_msg num_retries sleep_period_secs
                              (range num_retries) None ;;
   response <- read_local "response" response ;;
   if negb (status_code response =? 200)
   then print (PostRequestFailed (status_code response) (text response))
   else ret tt)%io.

(** [{"user": msg_dict["user"], "function": msg_dict["function"]}] *)
Definition default_req_dict (msg_dict : msg_dict) : result req_dict :=
  match md_user msg_dict with
  | None => Raise (KeyError "user")
  | Some user =>
      match md_function msg_dict with
      | None => Raise (KeyError "function")
      | Some function => Ok {| rd_user := user; rd_function := function |}
      end
  end.

(** [if req_dict is None: req_dict = {...}] *)
Definition resolve_req_dict (req_dict : option req_dict) (msg_dict : msg_dict)
  : result _ :=
  match req_dict with
  | None => default_req_dict msg_dict
  | Some d => Ok d
  end.

Definition expected_num_messages (msg_dict : msg_dict) (num_messages : Z) : Z :=
  match md_mpi_world_size msg_dict with
  | Some mpi_world_size => mpi_world_size
  | None => num_messages
  end.

(** The two loops that turn the request into the preloaded one. *)
Definition pad_messages (msg_dict : msg_dict) (expected_num_messages : Z)
  (req : Req.t) : Req.t :=
  fold_left
    (fun req (_ : nat) => Req.append (Batch.message_factory msg_dict (Req.appId req)) req)
    (range2 (len (Req.messages req)) expected_num_messages) req.

Definition pin_hosts (host_list : list string) (req : Req.t) : result Req.t :=
  for_each
    (fun (group_idx : nat) req =>
       msgs <- setitem (Req.messages req) group_idx
                       (Msg.set_groupIdx (Z.of_nat group_idx)) ;;
       host <- getitem host_list group_idx ;;
       msgs <- setitem msgs group_idx (Msg.set_executedHost host) ;;
       Ok (Req.set_messages msgs req))
    (range (len (Req.messages req))) req.

(** The result of [invoke_wasm]: the status as a dict ([MessageToDict]) when
    [dict_out] is set, as the protobuf object otherwise. *)
Inductive invoke_result : Type :=
| AsDict (ber_status : Status.t)
| AsMessage (ber_status : Status.t).

(** [gid] is the identifier [generate_gid()] draws; [url] is the planner URL
    that the INI file resolves to. *)
Definition invoke_wasm (gid : Z) (url : string) (msg_dict : msg_dict)
  (num_messages : Z) (req_dict : option req_dict) (dict_out : bool)
  (host_list : option (list string)) : io invoke_result :=
  (req_dict <- lift (resolve_req_dict req_dict msg_dict) ;;
   let req := Batch.batch_exec_factory gid req_dict msg_dict num_messages in
   let msg := EXECUTE_BATCH req in
   let expected_num_messages := expected_num_messages msg_dict num_messages in
   match host_list with
   | Some host_list =>
       lift (assert (len host_list =? expected_num_messages) EmptyString) ;;
       let req := pad_messages msg_dict expected_num_messages req in
       req <- lift (pin_hosts host_list req) ;;
       let preload_msg := PRELOAD_SCHEDULING_DECISION req in
       response <- post url preload_msg ;;
       if negb (status_code response =? 200) then
         print (ErrorPreloading (status_code response) (text response)) ;;
         raise (RuntimeError "Error preloading scheduling decision!")
       else ret tt
   | None => ret tt
   end ;;
   result <- invoke_and_await url msg expected_num_messages ;;
   if dict_out then ret (AsDict result) else ret (AsMessage result))%io.

Definition invoke_wasm_without_wait (native : Struct.byteorder) (url : string)
  (app_id : Z) (msg_dict : msg_dict) (num_messages : Z)
  (req_dict : option req_dict) (input_list : option (list Batch.map_data))
  : io Z :=
  (req_dict <- lift (resolve_req_dict req_dict msg_dict) ;;
   req <- lift (Batch.batch_exec_input_factory native req_dict app_id msg_dict
                                               num_messages input_list None) ;;
   let msg := EXECUTE_BATCH req in
   invoke_without_wait url msg ;;
   ret (Req.appId req))%io.

(** [ParseDict({"appId": app_id}, BatchExecuteRequestStatus())] *)
Definition status_of_app_id (app_id : Z) : Status.t := Status.mk app_id false 0 [].

Definition query_result (app_id : Z) (url : string) : io Status.t :=
  let poll_period := (1 # 2)%Q in
  let json_msg := EXECUTE_BATCH_STATUS (status_of_app_id app_id) in
  (ber_status <- poll_loop poll_period url json_msg None ;;
   read_local "ber_status" ber_status)%io.

End Invoke.

(** ** Endpoints, traces and the requests as worded *)

Module Protocol.
Import Invoke.

(** The retryable admission failure: HTTP 500 with body "No available hosts". *)
Definition no_available_hosts : http_response :=
  {| status_code := 500; text := Plain "No available hosts" |}.

(** The not-yet-tracked answer to a status query, with any non-200 code. *)
Definition not_registered (code : Z) : http_response :=
  {| status_code := code; text := Plain "App not registered in results" |}.

(** HTTP 200 with a body that parses into the status [ber_status]. *)
Definition ok200 (ber_status : Status.t) : http_response :=
  {| status_code := 200; text := StatusJson ber_status |}.

(** The test of the admission loop: is this answer the retryable failure? *)
Definition refused (r : http_response) : bool :=
  (status_code r =? 500) && text_eq (text r) "No available hosts".

(** One refused admission attempt: the POST, the log line, the backoff. *)
Definition retry_round (url : string) (json_msg : planner_msg) (num_retries : Z)
  (i : nat) : list event :=
  [EvPost url json_msg;
   EvPrint (NoAvailableHostsRetrying (Z.of_nat i + 1) num_retries);
   EvSleep (1 # 2)%Q].

(** [k] refused attempts and the attempt that is answered otherwise. *)
Definition admission_trace (url : string) (json_msg : planner_msg)
  (num_retries : Z) (k : nat) : list event :=
  flat_map (retry_round url json_msg num_retries) (seq 0 k) ++ [EvPost url json_msg].

(** Number of submission POSTs ([EXECUTE_BATCH]), of status polls
    ([EXECUTE_BATCH_STATUS]) and of preloads in a trace. *)
Definition is_submission (e : event) : bool :=
  match e with
  | EvPost _ (EXECUTE_BATCH _) => true
  | _ => false
  end.

Definition is_poll (e : event) : bool :=
  match e with
  | EvPost _ (EXECUTE_BATCH_STATUS _) => true
  | _ => false
  end.

Definition is_preload (e : event) : bool :=
  match e with
  | EvPost _ (PRELOAD_SCHEDULING_DECISION _) => true
  | _ => false
  end.

Definition submissions (tr : list event) : nat := List.length (filter is_submission tr).
Definition polls (tr : list event) : nat := List.length (filter is_poll tr).
Definition preloads (tr : list event) : nat := List.length (filter is_preload tr).

(** Phase 2 of [invoke_and_await], entered with the status it sends. *)
Definition completion (url : string) (ber_status : Status.t) : io Status.t :=
  bind (poll_loop (2 # 1)%Q url (EXECUTE_BATCH_STATUS ber_status) (Some ber_status))
       (read_local "ber_status").

(** The value [invoke_wasm] returns for a status. *)
Definition wrap (dict_out : bool) (ber_status : Status.t) : invoke_result :=
  if dict_out then AsDict ber_status else AsMessage ber_status.

(** The PlacementPreload as the protocol description words it: one message
    per host of the list, message [i] a copy of the template bound to the
    [appId] with [groupIdx = i] and [executedHost = hostList[i]]. *)
Definition pinned_message (msg_dict : msg_dict) (app_id : Z)
  (host_list : list string) (i : nat) : Msg.t :=
  Msg.set_executedHost (nth i host_list EmptyString)
    (Msg.set_groupIdx (Z.of_nat i) (Batch.message_factory msg_dict app_id)).

Definition preloaded_request (app_id : Z) (req_dict : req_dict)
  (msg_dict : msg_dict) (host_list : list string) : Req.t :=
  Req.mk app_id (rd_user req_dict) (rd_function req_dict)
         (map (pinned_message msg_dict app_id host_list)
              (seq 0 (List.length host_list))).

End Protocol.

(** ** Reading back what [serialize_map] wrote

    A reader that takes the length fields for what the code puts there,
    numbers of characters: it reads that many UTF-8 characters. It serves
    to show that the buffers of [serialize_map] determine the map. *)

Module CharReader.

(** One UTF-8 character off the front of a buffer. *)
Definition read_char (bs : list Z) : option (Z * list Z) :=
  match bs with
  | [] => None
  | b0 :: r0 =>
      if (0 <=? b0) && (b0 <? 128) then Some (b0, r0)
      else if (192 <=? b0) && (b0 <? 224) then
        match r0 with
        | b1 :: r1 => Some ((b0 - 192) * 64 + (b1 - 128), r1)
        | _ => None
        end
      else if (224 <=? b0) && (b0 <? 240) then
        match r0 with
        | b1 :: b2 :: r2 =>
            Some ((b0 - 224) * 4096 + (b1 - 128) * 64 + (b2 - 128), r2)
        | _ => None
        end
      else if (240 <=? b0) && (b0 <? 248) then
        match r0 with
        | b1 :: b2 :: b3 :: r3 =>
            Some ((b0 - 240) * 262144 + (b1 - 128) * 4096
                  + (b2 - 128) * 64 + (b3 - 128), r3)
        | _ => None
        end
      else None
  end.

Fixpoint read_chars (n : nat) (bs : list Z) : option (pystr * list Z) :=
  match n with
  | O => Some ([], bs)
  | S n' =>
      match read_char bs with
      | Some (c, r) =>
          match read_chars n' r with
          | Some (s, r') => Some (c :: s, r')
          | None => None
          end
      | None => None
      end
  end.

End CharReader.

(** A string [serialize_string] accepts: fewer than 2^32 characters, all of
    them Unicode scalar values. *)
Definition packable (s : pystr) : Prop :=
  len s <= 4294967295 /\ Forall Utf8.scalar s.

Definition packable_map (m : Batch.map_data) : Prop :=
  len m <= 4294967295 /\
  Forall (fun kv => packable (fst kv) /\ packable (snd kv)) m.

(** ** Answers seen by the polling loop *)

Module Polling.
Import Invoke.

(** The answers after which the loop of [invoke_and_await] and
    [query_result] goes round again: a non-200 answer with the
    not-registered body, or a 200 answer whose status is not finished. *)
Definition keeps_polling (r : http_response) : bool :=
  if negb (status_code r =? 200) then
    text_eq (text r) "App not registered in results"
  else
    match Parse (text r) with
    | Ok ber_status => negb (Status.finished ber_status)
    | Raise _ => false
    end.

(** The value of [ber_status] after such an answer. *)
Definition observed (ber_status : option Status.t) (r : http_response)
  : option Status.t :=
  if negb (status_code r =? 200) then ber_status
  else
    match Parse (text r) with
    | Ok st => Some st
    | Raise _ => ber_status
    end.

(** One round of the loop, as seen from outside. *)
Definition poll_round (poll_period : Q) (url : string) (json_msg : planner_msg)
  : list event :=
  [EvSleep poll_period; EvPost url json_msg].

(** Number of POSTs of any kind in a trace. *)
Definition is_post (e : event) : bool :=
  match e with
  | EvPost _ _ => true
  | _ => false
  end.

Definition posts (tr : list event) : nat := List.length (filter is_post tr).

End Polling.

(** ** Pinning any list of messages *)

Module Pinning.

(** The messages of a request after the pinning loop of [invoke_wasm], when
    the request had the messages [msgs] from index [i] on. *)
Fixpoint pin_all (host_list : list string) (i : nat) (msgs : list Msg.t)
  : list Msg.t :=
  match msgs with
  | [] => []
  | m :: msgs' =>
      Msg.set_executedHost (nth i host_list EmptyString)
        (Msg.set_groupIdx (Z.of_nat i) m)
      :: pin_all host_list (Datatypes.S i) msgs'
  end.

End Pinning.

(** ** Concrete inputs

    The scenario of the protocol description: three messages for
    [user="alice", function="work"], accepted with [appId=42]. *)

Definition alice_work : msg_dict :=
  {| md_user := Some "alice"; md_function := Some "work"; md_mpi_world_size := None |}.

Definition alice_req : req_dict := {| rd_user := "alice"; rd_function := "work" |}.

Definition planner_url : string := "http://planner:8080".

(** The statuses the fake endpoint answers with: the admission, a poll
    answered "not finished", a poll answered "finished" in which the server
    put 7 for [expectedNumMessages]. *)
Definition st_accepted : Status.t := Status.mk 42 false 0 [].
Definition st_running : Status.t := Status.mk 42 false 0 [].
Definition st_done : Status.t := Status.mk 42 true 7 [].

(** A failure that is neither of the two sentinels. *)
Definition server_error : Invoke.http_response :=
  {| Invoke.status_code := 500; Invoke.text := Invoke.Plain "Internal Server Error" |}.

(** A collective job of world size 3 and the hosts to pin it to. *)
Definition mpi_job : msg_dict :=
  {| md_user := Some "alice"; md_function := Some "work"; md_mpi_world_size := Some 3 |}.

Definition three_hosts : list string := ["10.0.0.1"; "10.0.0.2"; "10.0.0.3"].

(** The map of "k" to "v" and of U+00E9 to the empty string, and what
    [serialize_map] writes for it on a little-endian machine. *)
Definition kv_map : Batch.map_data := [([107], [118]); ([233], [])].

Definition kv_buffer : list Z :=
  [2; 0; 0; 0;  1; 0; 0; 0;  107;  1; 0; 0; 0;  118;
   1; 0; 0; 0;  195; 169;  0; 0; 0; 0].

(** * Properties *)

(** ** Lists, loops and indexing *)

Section Loops.

Context {A : Type}.

Lemma len_nonneg (l : list A) : 0 <= len l.
Proof. unfold len. lia. Qed.

Lemma to_nat_len (l : list A) : Z.to_nat (len l) = List.length l.
Proof. unfold len. lia. Qed.

Lemma len_app (l l' : list A) : len (l ++ l') = len l + len l'.
Proof. unfold len. rewrite length_app. lia. Qed.

Lemma setitem_ok (f : A -> A) (l : list A) (i : nat) :
  (i < List.length l)%nat ->
  exists l', setitem l i f = Ok l'.
Proof.
  revert i. induction l as [|a l IH]; intros i Hi; simpl in *; [lia|].
  destruct i as [|i]; [eauto|].
  destruct (IH i) as [l' E]; [lia|]. rewrite E. eauto.
Qed.

Lemma setitem_spec (f : A -> A) (l l' : list A) (i : nat) :
  setitem l i f = Ok l' ->
  List.length l' = List.length l /\
  (forall a, nth_error l i = Some a -> nth_error l' i = Some (f a)) /\
  (forall j, j <> i -> nth_error l' j = nth_error l j).
Proof.
  revert l' i. induction l as [|a l IH]; intros l' i E; simpl in E; [discriminate|].
  destruct i as [|i].
  - inversion E; subst; clear E. simpl. repeat split.
    + intros b Hb. inversion Hb; reflexivity.
    + intros [|j] Hj; [congruence | reflexivity].
  - destruct (setitem l i f) as [l''|e] eqn:E'; [|discriminate].
    inversion E; subst; clear E.
    destruct (IH _ _ E') as (Hlen & Hi & Hj). simpl. repeat split.
    + now rewrite Hlen.
    + exact Hi.
    + intros [|j] Hne; [reflexivity|]. simpl. apply Hj. congruence.
Qed.

Lemma setitem_raises (f : A -> A) (l : list A) (i : nat) :
  (List.length l <= i)%nat -> setitem l i f = Raise IndexError.
Proof.
  revert i. induction l as [|a l IH]; intros i Hi; simpl in *; [reflexivity|].
  destruct i as [|i]; [lia|]. rewrite IH by lia. reflexivity.
Qed.

Lemma getitem_ok (l : list A) (i : nat) :
  (i < List.length l)%nat -> exists a, nth_error l i = Some a /\ getitem l i = Ok a.
Proof.
  intros Hi. unfold getitem.
  destruct (nth_error l i) as [a|] eqn:E; [eauto|].
  apply nth_error_None in E. lia.
Qed.

End Loops.

(** An invariant indexed by the number of iterations done holds at the end
    of a [for] loop over [range]-like indices that did not raise. *)
Lemma for_each_invariant {S : Type} (P : nat -> S -> Prop)
  (body : nat -> S -> result S) (start n : nat) (s s' : S) :
  P start s ->
  (forall i t t', (start <= i < start + n)%nat -> P i t -> body i t = Ok t' ->
                  P (Datatypes.S i) t') ->
  for_each body (seq start n) s = Ok s' ->
  P (start + n)%nat s'.
Proof.
  revert start s. induction n as [|n IH]; intros start s H0 Hstep E; simpl in E.
  - inversion E; subst. now rewrite Nat.add_0_r.
  - destruct (body start s) as [t|e] eqn:Eb; [|discriminate].
    replace (start + Datatypes.S n)%nat with (Datatypes.S start + n)%nat by lia.
    apply (IH (Datatypes.S start) t).
    + apply (Hstep start s t); [lia | assumption | assumption].
    + intros i u u' Hi. apply Hstep. lia.
    + exact E.
Qed.

(** A [for] loop whose body cannot raise while the invariant holds runs to
    its end. *)
Lemma for_each_returns {S : Type} (P : nat -> S -> Prop)
  (body : nat -> S -> result S) (start n : nat) (s : S) :
  P start s ->
  (forall i t, (start <= i < start + n)%nat -> P i t ->
               exists t', body i t = Ok t' /\ P (Datatypes.S i) t') ->
  exists s', for_each body (seq start n) s = Ok s' /\ P (start + n)%nat s'.
Proof.
  revert start s. induction n as [|n IH]; intros start s H0 Hstep; simpl.
  - exists s. now rewrite Nat.add_0_r.
  - destruct (Hstep start s) as (t & Eb & Ht); [lia | assumption |].
    rewrite Eb.
    replace (start + Datatypes.S n)%nat with (Datatypes.S start + n)%nat by lia.
    apply IH; [assumption|].
    intros i u Hi. apply Hstep. lia.
Qed.

Lemma fold_left_invariant {S : Type} (P : nat -> S -> Prop)
  (body : S -> nat -> S) (start n : nat) (s : S) :
  P start s ->
  (forall i t, (start <= i < start + n)%nat -> P i t -> P (Datatypes.S i) (body t i)) ->
  P (start + n)%nat (fold_left body (seq start n) s).
Proof.
  revert start s. induction n as [|n IH]; intros start s H0 Hstep; simpl.
  - now rewrite Nat.add_0_r.
  - replace (start + Datatypes.S n)%nat with (Datatypes.S start + n)%nat by lia.
    apply IH.
    + apply Hstep; [lia | assumption].
    + intros i u Hi. apply Hstep. lia.
Qed.


(** ** UTF-8 *)

Module Utf8Facts.
Import Utf8.

Lemma encode_char_length (c : Z) (b : list Z) :
  encode_char c = Ok b -> (1 <= List.length b <= 4)%nat.
Proof.
  unfold encode_char.
  repeat match goal with
         | |- context [if ?t then _ else _] => destruct t
         end; intros E; inversion E; simpl; lia.
Qed.

Lemma encode_char_scalar (c : Z) :
  scalar c -> exists b, encode_char c = Ok b.
Proof.
  intros [Hr Hs]. unfold encode_char.
  destruct (Z.ltb_spec c 0); [lia|].
  destruct (Z.ltb_spec c 128); [eauto|].
  destruct (Z.ltb_spec c 2048); [eauto|].
  destruct (Z.leb_spec 55296 c); destruct (Z.ltb_spec c 57344); simpl;
    try lia;
    (destruct (Z.ltb_spec c 65536); [eauto|]);
    (destruct (Z.ltb_spec c 1114112); [eauto|lia]).
Qed.

Lemma encode_scalar (s : pystr) :
  Forall scalar s -> exists b, encode s = Ok b.
Proof.
  induction 1 as [|c s Hc _ [bs IH]]; simpl; [eauto|].
  destruct (encode_char_scalar c Hc) as [b Eb]. rewrite Eb, IH. simpl. eauto.
Qed.

(** Settles the test of the conditional at the head of the goal from the
    arithmetic hypotheses. *)
Ltac head_test :=
  match goal with
  | |- (if ?t then _ else _) = _ =>
      match t with
      | context [?a <=? ?b] => destruct (Z.leb_spec a b); try lia
      | context [?a <? ?b] => destruct (Z.ltb_spec a b); try lia
      end
  end; cbn [andb negb].

Lemma decode_1 (b0 : Z) (r : list Z) :
  0 <= b0 < 128 -> decode (b0 :: r) = option_map (cons b0) (decode r).
Proof.
  intros H0. unfold decode; fold decode. repeat head_test. reflexivity.
Qed.

Lemma decode_2 (b0 b1 c : Z) (r : list Z) :
  192 <= b0 < 224 -> 128 <= b1 < 192 ->
  c = (b0 - 192) * 64 + (b1 - 128) -> 128 <= c ->
  decode (b0 :: b1 :: r) = option_map (cons c) (decode r).
Proof.
  intros H0 H1 Hc Hmin. unfold decode; fold decode. unfold is_cont.
  rewrite <- Hc. repeat head_test. reflexivity.
Qed.

Lemma decode_3 (b0 b1 b2 c : Z) (r : list Z) :
  224 <= b0 < 240 -> 128 <= b1 < 192 -> 128 <= b2 < 192 ->
  c = (b0 - 224) * 4096 + (b1 - 128) * 64 + (b2 - 128) ->
  2048 <= c -> ~ (55296 <= c < 57344) ->
  decode (b0 :: b1 :: b2 :: r) = option_map (cons c) (decode r).
Proof.
  intros H0 H1 H2 Hc Hmin Hsur. unfold decode; fold decode. unfold is_cont.
  rewrite <- Hc. repeat head_test; reflexivity.
Qed.

Lemma decode_4 (b0 b1 b2 b3 c : Z) (r : list Z) :
  240 <= b0 < 248 -> 128 <= b1 < 192 -> 128 <= b2 < 192 -> 128 <= b3 < 192 ->
  c = (b0 - 240) * 262144 + (b1 - 128) * 4096 + (b2 - 128) * 64 + (b3 - 128) ->
  65536 <= c < 1114112 ->
  decode (b0 :: b1 :: b2 :: b3 :: r) = option_map (cons c) (decode r).
Proof.
  intros H0 H1 H2 H3 Hc Hrange. unfold decode; fold decode. unfold is_cont.
  rewrite <- Hc. repeat head_test. reflexivity.
Qed.

Ltac ok_inj :=
  match goal with
  | |- Ok ?l = Ok ?b -> _ =>
      let E := fresh in intros E; replace b with l by congruence; clear E
  end.

(** Decoding undoes the encoding of one character, whatever follows. *)
Lemma decode_encode_char (c : Z) (b r : list Z) :
  encode_char c = Ok b ->
  decode (b ++ r) = option_map (cons c) (decode r).
Proof.
  unfold encode_char.
  destruct (Z.ltb_spec c 0); [discriminate|].
  destruct (Z.ltb_spec c 128).
  { ok_inj. cbn [app]. apply decode_1. lia. }
  destruct (Z.ltb_spec c 2048).
  { ok_inj. cbn [app]. apply decode_2; Z.to_euclidean_division_equations; lia. }
  destruct (Z.leb_spec 55296 c); destruct (Z.ltb_spec c 57344);
    cbn [andb]; try discriminate;
    (destruct (Z.ltb_spec c 65536);
     [ ok_inj; cbn [app]; apply decode_3; Z.to_euclidean_division_equations; lia |]);
    (destruct (Z.ltb_spec c 1114112); [|discriminate]);
    ok_inj; cbn [app]; apply decode_4; Z.to_euclidean_division_equations; lia.
Qed.

(** [bytes.decode] undoes [str.encode]. *)
Lemma decode_encode (s : pystr) (b : list Z) :
  encode s = Ok b -> decode b = Some s.
Proof.
  revert b. induction s as [|c s IH]; intros b E; simpl in E.
  - inversion E. reflexivity.
  - destruct (encode_char c) as [bc|] eqn:Ec; [|discriminate]. simpl in E.
    destruct (encode s) as [bs|] eqn:Es; [|discriminate]. simpl in E.
    inversion E; subst; clear E.
    rewrite (decode_encode_char c bc bs Ec), (IH bs eq_refl). reflexivity.
Qed.

Lemma encode_ascii (s : pystr) : ascii_only s -> encode s = Ok s.
Proof.
  induction 1 as [|c s Hc _ IH]; simpl; [reflexivity|].
  unfold encode_char.
  destruct (Z.ltb_spec c 0); [lia|]. destruct (Z.ltb_spec c 128); [|lia].
  simpl. rewrite IH. reflexivity.
Qed.

Lemma byteLen_ascii (s : pystr) : ascii_only s -> byteLen s = len s.
Proof. intros H. unfold byteLen. now rewrite (encode_ascii s H). Qed.

Lemma byteLen_encode (s : pystr) (b : list Z) :
  encode s = Ok b -> byteLen s = len b.
Proof. intros E. unfold byteLen. now rewrite E. Qed.

(** No string has more characters than encoded bytes. *)
Lemma len_le_byteLen (s : pystr) (b : list Z) :
  encode s = Ok b -> len s <= len b.
Proof.
  revert b. induction s as [|c s IH]; intros b E; simpl in E.
  - inversion E. unfold len. simpl. lia.
  - destruct (encode_char c) as [bc|] eqn:Ec; [|discriminate]. simpl in E.
    destruct (encode s) as [bs|] eqn:Es; [|discriminate]. simpl in E.
    inversion E; subst; clear E.
    specialize (IH bs eq_refl). apply encode_char_length in Ec.
    unfold len in *. rewrite length_app. simpl. lia.
Qed.

End Utf8Facts.

(** ** The map serialiser *)

Module SerializerFacts.
Import Struct Batch Layout Utf8Facts.

Lemma pack_I_ok (native : byteorder) (n : Z) :
  0 <= n <= 4294967295 ->
  pack_I native n = Ok (match native with little => le32 n | big => rev (le32 n) end).
Proof.
  intros H. unfold pack_I.
  destruct (Z.leb_spec 0 n); [|lia]. destruct (Z.leb_spec n 4294967295); [|lia].
  reflexivity.
Qed.

Lemma pack_I_length (native : byteorder) (n : Z) (b : list Z) :
  pack_I native n = Ok b -> len b = 4.
Proof.
  unfold pack_I. destruct ((0 <=? n) && (n <=? 4294967295)); [|discriminate].
  intros E. replace b with (match native with little => le32 n | big => rev (le32 n) end)
    by congruence.
  destruct native; reflexivity.
Qed.

Lemma pack_I_little (n : Z) (b : list Z) :
  pack_I little n = Ok b -> b = le32 n /\ 0 <= n <= 4294967295.
Proof.
  unfold pack_I.
  destruct (Z.leb_spec 0 n); destruct (Z.leb_spec n 4294967295);
    cbn [andb]; try discriminate.
  intros E. split; [congruence | lia].
Qed.

Lemma read_le32_le32 (n : Z) (r : list Z) :
  0 <= n <= 4294967295 -> read_le32 (le32 n ++ r) = Some (n, r).
Proof.
  intros H. unfold le32, read_le32. cbn [app]. do 2 f_equal.
  Z.to_euclidean_division_equations; lia.
Qed.

(** [serialize_string] appends to the buffer what [written_string] says. *)
Lemma serialize_string_written (native : byteorder) (buffer : list Z) (s : pystr) :
  serialize_string native buffer s =
  (chunk <- written_string native s ;; Ok (buffer ++ chunk)).
Proof.
  unfold serialize_string, written_string.
  destruct (pack_I native (len s)) as [n|e]; [|reflexivity]. cbn [Py.bind].
  destruct (Utf8.encode s) as [b|e]; [|reflexivity]. cbn [Py.bind].
  now rewrite app_assoc.
Qed.

Lemma for_each_written (native : byteorder) (m : map_data) (buffer : list Z) :
  for_each
    (fun (item : pystr * pystr) buffer =>
       let (key, value) := item in
       buffer <- serialize_string native buffer key ;;
       serialize_string native buffer value)
    m buffer =
  (r <- written_entries native m ;; Ok (buffer ++ r)).
Proof.
  revert buffer. induction m as [|[k v] m IH]; intros buffer; cbn [for_each written_entries].
  - cbn [Py.bind]. now rewrite app_nil_r.
  - rewrite serialize_string_written.
    destruct (written_string native k) as [ck|e]; [|reflexivity]. cbn [Py.bind].
    rewrite serialize_string_written.
    destruct (written_string native v) as [cv|e]; [|reflexivity]. cbn [Py.bind].
    rewrite IH.
    destruct (written_entries native m) as [r|e]; [|reflexivity]. cbn [Py.bind].
    now rewrite <- !app_assoc.
Qed.

(** What [serialize_map] returns: the packed [len(map_data)], then for each
    item the packed [len(key)], the key bytes, the packed [len(value)] and
    the value bytes. *)
Lemma serialize_map_written (native : byteorder) (m : map_data) :
  serialize_map native m =
  (n <- pack_I native (len m) ;; r <- written_entries native m ;; Ok (n ++ r)).
Proof.
  unfold serialize_map.
  destruct (pack_I native (len m)) as [n|e]; [|reflexivity]. cbn [Py.bind].
  rewrite for_each_written. reflexivity.
Qed.

Lemma written_string_size (native : byteorder) (s : pystr) (chunk : list Z) :
  written_string native s = Ok chunk -> len chunk = 4 + Utf8.byteLen s.
Proof.
  unfold written_string.
  destruct (pack_I native (len s)) as [n|e] eqn:En; [|discriminate]. cbn [Py.bind].
  destruct (Utf8.encode s) as [b|e] eqn:Eb; [|discriminate]. cbn [Py.bind].
  intros E. replace chunk with (n ++ b) by congruence.
  rewrite len_app, (pack_I_length _ _ _ En), (byteLen_encode _ _ Eb). reflexivity.
Qed.

Lemma written_entries_size (native : byteorder) (m : map_data) (r : list Z) :
  written_entries native m = Ok r -> len r = payload_size m.
Proof.
  revert r. induction m as [|[k v] m IH]; intros r; cbn [written_entries payload_size].
  - intros E. replace r with (@nil Z) by congruence. reflexivity.
  - destruct (written_string native k) as [ck|e] eqn:Ek; [|discriminate]. cbn [Py.bind].
    destruct (written_string native v) as [cv|e] eqn:Ev; [|discriminate]. cbn [Py.bind].
    destruct (written_entries native m) as [r'|e] eqn:Er; [|discriminate]. cbn [Py.bind].
    intros E. replace r with (ck ++ cv ++ r') by congruence.
    rewrite !len_app, (written_string_size _ _ _ Ek), (written_string_size _ _ _ Ev),
      (IH r' eq_refl). lia.
Qed.

(** The length formula: whenever [serialize_map] returns, the buffer has
    [4 + Σ (4 + byteLen(k) + 4 + byteLen(v))] bytes. *)
Lemma serialize_map_size (native : byteorder) (m : map_data) (buf : list Z) :
  serialize_map native m = Ok buf -> len buf = 4 + payload_size m.
Proof.
  rewrite serialize_map_written.
  destruct (pack_I native (len m)) as [n|e] eqn:En; [|discriminate]. cbn [Py.bind].
  destruct (written_entries native m) as [r|e] eqn:Er; [|discriminate]. cbn [Py.bind].
  intros E. replace buf with (n ++ r) by congruence.
  rewrite len_app, (pack_I_length _ _ _ En), (written_entries_size _ _ _ Er). reflexivity.
Qed.

Lemma firstn_len_app {A : Type} (b r : list A) :
  firstn (Z.to_nat (len b)) (b ++ r) = b.
Proof.
  rewrite to_nat_len. induction b as [|a b IH]; simpl; [reflexivity | now rewrite IH].
Qed.

Lemma skipn_len_app {A : Type} (b r : list A) :
  skipn (Z.to_nat (len b)) (b ++ r) = r.
Proof.
  rewrite to_nat_len. induction b as [|a b IH]; simpl; [reflexivity | exact IH].
Qed.

(** *** The format as worded: it decodes back *)

Lemma read_string_field (s : pystr) (chunk r : list Z) :
  field s = Ok chunk -> Utf8.byteLen s <= 4294967295 ->
  MapDecode.read_string (chunk ++ r) = Some (s, r).
Proof.
  unfold field, MapDecode.read_string.
  destruct (Utf8.encode s) as [b|e] eqn:Eb; [|discriminate]. cbn [Py.bind].
  intros E Hsize. replace chunk with (le32 (len b) ++ b) by congruence.
  rewrite (byteLen_encode _ _ Eb) in Hsize.
  rewrite <- app_assoc, read_le32_le32 by (pose proof (len_nonneg b); lia).
  destruct (Z.leb_spec (len b) (len (b ++ r))) as [_|Hlt];
    [|rewrite len_app in Hlt; pose proof (len_nonneg r); lia].
  rewrite firstn_len_app, skipn_len_app, (decode_encode _ _ Eb). reflexivity.
Qed.

Lemma read_pairs_entries (m : map_data) (r rest : list Z) :
  entries m = Ok r -> sizes_fit m ->
  MapDecode.read_pairs (List.length m) (r ++ rest) = Some (m, rest).
Proof.
  revert r. induction m as [|[k v] m IH]; intros r E Hfit;
    cbn [entries] in E; cbn [List.length MapDecode.read_pairs].
  - replace r with (@nil Z) by congruence. reflexivity.
  - destruct (field k) as [ck|e] eqn:Ek; [|discriminate]. cbn [Py.bind] in E.
    destruct (field v) as [cv|e] eqn:Ev; [|discriminate]. cbn [Py.bind] in E.
    destruct (entries m) as [r'|e] eqn:Er; [|discriminate]. cbn [Py.bind] in E.
    replace r with (ck ++ cv ++ r') by congruence.
    inversion Hfit as [|kv m' [Hk Hv] Hm]; subst. cbn [fst snd] in Hk, Hv.
    rewrite <- !app_assoc.
    rewrite (read_string_field k ck _ Ek Hk), (read_string_field v cv _ Ev Hv).
    rewrite (IH r' eq_refl Hm). reflexivity.
Qed.

(** Round trip of the format as worded, multi-byte text included. *)
Lemma layout_roundtrip (m : map_data) (buf : list Z) :
  encode m = Ok buf -> len m <= 4294967295 -> sizes_fit m ->
  MapDecode.decode buf = Some m.
Proof.
  unfold encode, MapDecode.decode.
  destruct (entries m) as [r|e] eqn:Er; [|discriminate]. cbn [Py.bind].
  intros E Hlen Hfit. replace buf with (le32 (len m) ++ r) by congruence.
  rewrite read_le32_le32 by (pose proof (len_nonneg m); lia).
  rewrite to_nat_len.
  rewrite <- (app_nil_r r), (read_pairs_entries m r [] Er Hfit). reflexivity.
Qed.

Lemma field_returns (s : pystr) :
  Forall Utf8.scalar s -> exists chunk, field s = Ok chunk.
Proof.
  intros H. destruct (encode_scalar s H) as [b Eb].
  unfold field. rewrite Eb. cbn [Py.bind]. eauto.
Qed.

Lemma layout_returns (m : map_data) :
  encodable_map m -> exists buf, encode m = Ok buf.
Proof.
  intros [_ Hm]. unfold encode.
  assert (exists r, entries m = Ok r) as [r Er].
  { induction Hm as [|[k v] m [[Hk _] [Hv _]] _ [r IH]]; cbn [entries fst snd] in *.
    - eauto.
    - destruct (field_returns k Hk) as [ck Ek], (field_returns v Hv) as [cv Ev].
      rewrite Ek, Ev, IH. cbn [Py.bind]. eauto. }
  rewrite Er. cbn [Py.bind]. eauto.
Qed.

Lemma encodable_sizes_fit (m : map_data) : encodable_map m -> sizes_fit m.
Proof.
  intros [_ Hm]. unfold sizes_fit.
  eapply Forall_impl; [|exact Hm].
  intros [k v] [[_ Hk] [_ Hv]]. cbn [fst snd] in *. split; assumption.
Qed.

(** *** The client's encoder against the format *)

(** A string whose character count is its byte count is written as the
    format says, on a little-endian machine. *)
Lemma written_string_field (s : pystr) (chunk : list Z) :
  written_string little s = Ok chunk -> Utf8.byteLen s = len s ->
  field s = Ok chunk.
Proof.
  unfold written_string, field.
  destruct (pack_I little (len s)) as [n|e] eqn:En; [|discriminate]. cbn [Py.bind].
  destruct (Utf8.encode s) as [b|e] eqn:Eb; [|discriminate]. cbn [Py.bind].
  intros E Hlen. rewrite (byteLen_encode _ _ Eb) in Hlen.
  apply pack_I_little in En. destruct En as [-> _]. rewrite Hlen. exact E.
Qed.

Lemma written_string_fits (native : byteorder) (s : pystr) (chunk : list Z) :
  written_string native s = Ok chunk -> len s <= 4294967295.
Proof.
  unfold written_string, pack_I.
  destruct (Z.leb_spec 0 (len s)); destruct (Z.leb_spec (len s) 4294967295);
    cbn [andb Py.bind]; try discriminate.
  intros _. assumption.
Qed.

Lemma written_entries_ascii (m : map_data) (r : list Z) :
  ascii_map m -> written_entries little m = Ok r ->
  entries m = Ok r /\ sizes_fit m.
Proof.
  intros Hm. revert r.
  induction Hm as [|[k v] m [Hk Hv] _ IH]; intros r;
    cbn [written_entries entries fst snd] in *.
  - intros E. split; [exact E | constructor].
  - destruct (written_string little k) as [ck|e] eqn:Ek; [|discriminate]. cbn [Py.bind].
    destruct (written_string little v) as [cv|e] eqn:Ev; [|discriminate]. cbn [Py.bind].
    destruct (written_entries little m) as [r'|e] eqn:Er; [|discriminate]. cbn [Py.bind].
    intros E. destruct (IH r' eq_refl) as [IHe IHf].
    rewrite (written_string_field k ck Ek (byteLen_ascii k Hk)).
    rewrite (written_string_field v cv Ev (byteLen_ascii v Hv)).
    rewrite IHe. cbn [Py.bind]. split; [exact E|].
    constructor; [|exact IHf]. cbn [fst snd].
    rewrite (byteLen_ascii k Hk), (byteLen_ascii v Hv).
    split; eapply written_string_fits; eassumption.
Qed.

(** On ASCII-only maps and a little-endian machine [serialize_map] writes
    the format as worded. *)
Lemma serialize_map_ascii_layout (m : map_data) (buf : list Z) :
  ascii_map m -> serialize_map little m = Ok buf -> encode m = Ok buf.
Proof.
  intros Hm. rewrite serialize_map_written. unfold encode.
  destruct (pack_I little (len m)) as [n|e] eqn:En; [|discriminate]. cbn [Py.bind].
  destruct (written_entries little m) as [r|e] eqn:Er; [|discriminate]. cbn [Py.bind].
  intros E. destruct (written_entries_ascii m r Hm Er) as [-> _]. cbn [Py.bind].
  apply pack_I_little in En. destruct En as [-> _]. exact E.
Qed.

(** ... and the decoder gives the map back. *)
Lemma serialize_map_ascii_roundtrip (m : map_data) (buf : list Z) :
  ascii_map m -> serialize_map little m = Ok buf ->
  MapDecode.decode buf = Some m.
Proof.
  intros Hm E. pose proof (serialize_map_ascii_layout m buf Hm E) as El.
  rewrite serialize_map_written in E.
  destruct (pack_I little (len m)) as [n|e] eqn:En; [|discriminate]. cbn [Py.bind] in E.
  destruct (written_entries little m) as [r|e] eqn:Er; [|discriminate].
  apply pack_I_little in En. destruct En as [_ Hlen].
  destruct (written_entries_ascii m r Hm Er) as [_ Hfit].
  apply (layout_roundtrip m buf El); [lia | exact Hfit].
Qed.

(** On a big-endian machine the count and length fields are big-endian:
    the map of "a" to "b". *)
Lemma serialize_map_native_byte_order :
  serialize_map big [([97], [98])]
  = Ok [0; 0; 0; 1;  0; 0; 0; 1;  97;  0; 0; 0; 1;  98].
Proof. reflexivity. Qed.

(** [serialize_map] returns on every map of encodable strings. *)
Lemma written_string_returns (native : byteorder) (s : pystr) :
  encodable s -> exists chunk, written_string native s = Ok chunk.
Proof.
  intros [Hs Hsize]. destruct (encode_scalar s Hs) as [b Eb].
  rewrite (byteLen_encode _ _ Eb) in Hsize.
  pose proof (len_le_byteLen s b Eb). pose proof (len_nonneg s).
  unfold written_string. rewrite pack_I_ok by lia. cbn [Py.bind].
  rewrite Eb. cbn [Py.bind]. eauto.
Qed.

Lemma serialize_map_returns (native : byteorder) (m : map_data) :
  encodable_map m -> exists buf, serialize_map native m = Ok buf.
Proof.
  intros [Hlen Hm]. rewrite serialize_map_written.
  rewrite pack_I_ok by (pose proof (len_nonneg m); lia). cbn [Py.bind].
  assert (exists r, written_entries native m = Ok r) as [r Er].
  { clear Hlen.
    induction Hm as [|[k v] m [Hk Hv] _ [r IH]]; cbn [written_entries fst snd] in *.
    - eauto.
    - destruct (written_string_returns native k Hk) as [ck Ek].
      destruct (written_string_returns native v Hv) as [cv Ev].
      rewrite Ek, Ev, IH. cbn [Py.bind]. eauto. }
  rewrite Er. cbn [Py.bind]. eauto.
Qed.

End SerializerFacts.

(** ** The buffers hold bytes *)

Module ByteFacts.
Import Struct Batch Layout SerializerFacts.

Lemma le32_bytes (n : Z) : Forall Struct.is_byte (le32 n).
Proof.
  unfold le32, is_byte. repeat constructor; apply Z.mod_pos_bound; lia.
Qed.

Lemma pack_I_bytes (native : byteorder) (n : Z) (b : list Z) :
  pack_I native n = Ok b -> Forall Struct.is_byte b.
Proof.
  unfold pack_I. destruct ((0 <=? n) && (n <=? 4294967295)); [|discriminate].
  intros E. replace b with (match native with little => le32 n | big => rev (le32 n) end)
    by congruence.
  destruct native; [|apply Forall_rev]; apply le32_bytes.
Qed.

Lemma encode_char_bytes (c : Z) (b : list Z) :
  Utf8.encode_char c = Ok b -> Forall Struct.is_byte b.
Proof.
  unfold Utf8.encode_char, is_byte.
  destruct (Z.ltb_spec c 0); [discriminate|].
  destruct (Z.ltb_spec c 128).
  { intros E. replace b with [c] by congruence. repeat constructor; lia. }
  destruct (Z.ltb_spec c 2048).
  { intros E. replace b with [192 + c / 64; 128 + c mod 64] by congruence.
    repeat constructor; Z.to_euclidean_division_equations; lia. }
  destruct ((55296 <=? c) && (c <? 57344)); [discriminate|].
  destruct (Z.ltb_spec c 65536).
  { intros E.
    replace b with [224 + c / 4096; 128 + (c / 64) mod 64; 128 + c mod 64]
      by congruence.
    repeat constructor; Z.to_euclidean_division_equations; lia. }
  destruct (Z.ltb_spec c 1114112); [|discriminate].
  intros E.
  replace b with [240 + c / 262144; 128 + (c / 4096) mod 64;
                  128 + (c / 64) mod 64; 128 + c mod 64] by congruence.
  repeat constructor; Z.to_euclidean_division_equations; lia.
Qed.

Lemma encode_bytes (s : pystr) (b : list Z) :
  Utf8.encode s = Ok b -> Forall Struct.is_byte b.
Proof.
  revert b. induction s as [|c s IH]; intros b E; simpl in E.
  - replace b with (@nil Z) by congruence. constructor.
  - destruct (Utf8.encode_char c) as [bc|] eqn:Ec; [|discriminate]. simpl in E.
    destruct (Utf8.encode s) as [bs|] eqn:Es; [|discriminate]. simpl in E.
    replace b with (bc ++ bs) by congruence.
    apply Forall_app. split; [eapply encode_char_bytes; eassumption | now apply IH].
Qed.

Lemma written_string_bytes (native : byteorder) (s : pystr) (chunk : list Z) :
  written_string native s = Ok chunk -> Forall Struct.is_byte chunk.
Proof.
  unfold written_string.
  destruct (pack_I native (len s)) as [n|e] eqn:En; [|discriminate]. cbn [Py.bind].
  destruct (Utf8.encode s) as [b|e] eqn:Eb; [|discriminate]. cbn [Py.bind].
  intros E. replace chunk with (n ++ b) by congruence.
  apply Forall_app. split; [eapply pack_I_bytes | eapply encode_bytes]; eassumption.
Qed.

(** Every element of the buffer [serialize_map] returns is a byte. *)
Lemma serialize_map_bytes (native : byteorder) (m : map_data) (buf : list Z) :
  serialize_map native m = Ok buf -> Forall Struct.is_byte buf.
Proof.
  rewrite serialize_map_written.
  destruct (pack_I native (len m)) as [n|e] eqn:En; [|discriminate]. cbn [Py.bind].
  destruct (written_entries native m) as [r|e] eqn:Er; [|discriminate]. cbn [Py.bind].
  intros E. replace buf with (n ++ r) by congruence.
  apply Forall_app. split; [eapply pack_I_bytes; eassumption|].
  clear En E. revert r Er.
  induction m as [|[k v] m IH]; intros r; cbn [written_entries].
  - intros E. replace r with (@nil Z) by congruence. constructor.
  - destruct (written_string native k) as [ck|e] eqn:Ek; [|discriminate]. cbn [Py.bind].
    destruct (written_string native v) as [cv|e] eqn:Ev; [|discriminate]. cbn [Py.bind].
    destruct (written_entries native m) as [r'|e] eqn:Er; [|discriminate]. cbn [Py.bind].
    intros E. replace r with (ck ++ cv ++ r') by congruence.
    repeat (apply Forall_app; split);
      [eapply written_string_bytes; eassumption
      | eapply written_string_bytes; eassumption
      | now apply IH].
Qed.

End ByteFacts.

(** ** The request builders *)

Module BuilderFacts.
Import Struct Batch Built SerializerFacts.

Lemma setitem_last {A : Type} (f : A -> A) (l : list A) (a : A) :
  setitem (l ++ [a]) (List.length l) f = Ok (l ++ [f a]).
Proof.
  induction l as [|b l IH]; simpl; [reflexivity | now rewrite IH].
Qed.

Lemma nth_error_snoc {A : Type} (l : list A) (a b : A) (i : nat) :
  nth_error (l ++ [a]) i = Some b ->
  ((i < List.length l)%nat /\ nth_error l i = Some b) \/ (i = List.length l /\ b = a).
Proof.
  intros H. destruct (Nat.lt_ge_cases i (List.length l)) as [Hlt|Hge].
  - left. rewrite nth_error_app1 in H by assumption. auto.
  - right. rewrite nth_error_app2 in H by assumption.
    destruct (i - List.length l)%nat as [|k] eqn:Ek; simpl in H.
    + split; [lia | congruence].
    + destruct k; discriminate.
Qed.

(** [batch_exec_factory] in closed form: [num_messages] copies of the
    template message, all bound to the drawn identifier. *)
Lemma batch_exec_factory_closed (gid : Z) (rd : req_dict) (md : msg_dict) (n : Z) :
  batch_exec_factory gid rd md n =
  Req.mk gid (rd_user rd) (rd_function rd)
         (repeat (message_factory md gid) (Z.to_nat n)).
Proof.
  unfold batch_exec_factory, range.
  apply (fold_left_invariant
           (fun k req => req = Req.mk gid (rd_user rd) (rd_function rd)
                                      (repeat (message_factory md gid) k))
           _ 0%nat (Z.to_nat n)).
  - reflexivity.
  - intros i t _ ->. unfold Req.append, Req.set_messages. cbn.
    now rewrite <- repeat_cons.
Qed.

Ltac req_cbn H :=
  cbn [Py.bind Req.messages Req.appId Req.user Req.function] in H.

Section Bound.

Variables (native : byteorder) (rd : req_dict) (app_id : Z) (md : msg_dict)
          (n : Z) (il : option (list map_data)) (cl : option (list Z)).

(** The state of the loop of [batch_exec_input_factory] after [k] rounds. *)
Let after (k : nat) (req : Req.t) : Prop :=
  Req.appId req = app_id /\
  Req.user req = rd_user rd /\ Req.function req = rd_function rd /\
  List.length (Req.messages req) = k /\
  forall i m, nth_error (Req.messages req) i = Some m ->
              bound_message native md app_id il cl i m.

(** Whatever [batch_exec_input_factory] returns is the request as worded:
    bound to [app_id], one message per index of [range(num_messages)], each
    with its [chainedId] and, when inputs are supplied, its encoded input. *)
Lemma batch_exec_input_factory_built (req : Req.t) :
  batch_exec_input_factory native rd app_id md n il cl = Ok req ->
  Req.appId req = app_id /\
  Req.user req = rd_user rd /\ Req.function req = rd_function rd /\
  List.length (Req.messages req) = Z.to_nat n /\
  forall i m, nth_error (Req.messages req) i = Some m ->
              bound_message native md app_id il cl i m.
Proof.
  unfold batch_exec_input_factory.
  destruct (match il with Some l => _ | None => _ end) as [[]|e]; [|discriminate].
  cbn [Py.bind].
  destruct (match cl with Some l => _ | None => _ end) as [[]|e]; [|discriminate].
  cbn [Py.bind]. unfold range. intros E.
  apply (for_each_invariant after _ 0%nat (Z.to_nat n) _ req) in E; [exact E | |].
  - unfold after. cbn. repeat split; try reflexivity.
    intros [|i] m H; discriminate.
  - clear E req. intros i t t' _ (Hid & Hu & Hf & Hlen & Hmsgs) Hbody.
    unfold Req.append, Req.set_messages in Hbody. cbn in Hbody.
    rewrite Hid, <- Hlen in Hbody.
    destruct cl as [cids|]; destruct il as [inputs|].
    + destruct (getitem inputs (List.length (Req.messages t))) as [input|e] eqn:Ein;
        [|discriminate]. req_cbn Hbody.
      destruct (serialize_map native input) as [data|e] eqn:Edata;
        [|discriminate]. req_cbn Hbody.
      rewrite setitem_last in Hbody. req_cbn Hbody.
      destruct (getitem cids (List.length (Req.messages t))) as [cid|e] eqn:Ecid;
        [|discriminate]. req_cbn Hbody.
      rewrite setitem_last in Hbody. req_cbn Hbody.
      injection Hbody as <-. unfold after. cbn.
      repeat split; try assumption.
      * rewrite length_app. simpl. lia.
      * intros j m Hj. apply nth_error_snoc in Hj.
        destruct Hj as [[_ Hj]|[-> ->]]; [now apply Hmsgs|].
        unfold getitem in Ein, Ecid. rewrite Hlen in Ein, Ecid.
        destruct (nth_error inputs i) as [input'|] eqn:Ei; [|discriminate].
        destruct (nth_error cids i) as [cid'|] eqn:Ec; [|discriminate].
        exists cid. split; [exists cids; split; [reflexivity | congruence]|].
        exists input, data. repeat split; [congruence | assumption].
    + req_cbn Hbody.
      destruct (getitem cids (List.length (Req.messages t))) as [cid|e] eqn:Ecid;
        [|discriminate]. req_cbn Hbody.
      rewrite setitem_last in Hbody. req_cbn Hbody.
      injection Hbody as <-. unfold after. cbn.
      repeat split; try assumption.
      * rewrite length_app. simpl. lia.
      * intros j m Hj. apply nth_error_snoc in Hj.
        destruct Hj as [[_ Hj]|[-> ->]]; [now apply Hmsgs|].
        unfold getitem in Ecid. rewrite Hlen in Ecid.
        destruct (nth_error cids i) as [cid'|] eqn:Ec; [|discriminate].
        exists cid. split; [exists cids; split; [reflexivity | congruence]|].
        reflexivity.
    + destruct (getitem inputs (List.length (Req.messages t))) as [input|e];
        [|discriminate]. req_cbn Hbody.
      destruct (serialize_map native input) as [data|e]; [|discriminate].
      req_cbn Hbody.
      rewrite setitem_last in Hbody. req_cbn Hbody. discriminate.
    + cbn in Hbody. discriminate.
Qed.

(** With the chain-linkage identifiers supplied in the right number, and the
    inputs omitted or supplied in the right number and encodable,
    [batch_exec_input_factory] returns a request. *)
Lemma batch_exec_input_factory_returns (cids : list Z) :
  cl = Some cids -> len cids = n ->
  match il with
  | Some inputs => len inputs = n /\ Forall Layout.encodable_map inputs
  | None => True
  end ->
  exists req, batch_exec_input_factory native rd app_id md n il cl = Ok req.
Proof.
  intros -> Hc Hi. unfold batch_exec_input_factory.
  assert (Hai : match il with
                | Some l => assert (len l =? n)
                              "Number of input data should match number of messages"
                | None => Ok tt
                end = Ok tt).
  { destruct il as [inputs|]; [|reflexivity]. destruct Hi as [Hi _].
    unfold assert. now rewrite (proj2 (Z.eqb_eq _ _) Hi). }
  rewrite Hai. cbn [Py.bind]. unfold assert.
  rewrite (proj2 (Z.eqb_eq _ _) Hc). cbn [Py.bind]. unfold range.
  edestruct (for_each_returns
               (fun k (req : Req.t) => List.length (Req.messages req) = k))
    as (req & E & _); [| |exists req; exact E].
  - reflexivity.
  - intros i t Hi' Hlen. cbn beta.
    unfold Req.append, Req.set_messages.
    cbn [Py.bind Req.messages Req.appId Req.user Req.function].
    rewrite <- Hlen in *.
    assert (Hcid : (List.length (Req.messages t) < List.length cids)%nat)
      by (unfold len in Hc; lia).
    destruct (getitem_ok cids _ Hcid) as (cid & _ & Ecid).
    destruct il as [inputs|].
    + destruct Hi as [Hin Henc].
      assert (Hinp : (List.length (Req.messages t) < List.length inputs)%nat)
        by (unfold len in Hin; lia).
      destruct (getitem_ok inputs _ Hinp) as (input & Hnth & Einp).
      rewrite Einp. cbn [Py.bind].
      destruct (serialize_map_returns native input) as [data Edata].
      { rewrite Forall_forall in Henc. apply Henc.
        eapply nth_error_In; eassumption. }
      rewrite Edata. cbn [Py.bind]. rewrite setitem_last.
      cbn [Py.bind Req.messages Req.appId Req.user Req.function].
      rewrite Ecid. cbn [Py.bind]. rewrite setitem_last. cbn [Py.bind].
      eexists. split; [reflexivity|]. cbn. rewrite length_app. simpl. lia.
    + cbn [Py.bind Req.messages Req.appId Req.user Req.function].
      rewrite Ecid. cbn [Py.bind]. rewrite setitem_last. cbn [Py.bind].
      eexists. split; [reflexivity|]. cbn. rewrite length_app. simpl. lia.
Qed.

(** The arity checks raise [AssertionError], and nothing else is done. *)
Lemma batch_exec_input_factory_arity (inputs : list map_data) :
  il = Some inputs -> len inputs <> n ->
  batch_exec_input_factory native rd app_id md n il cl =
  Raise (AssertionError "Number of input data should match number of messages").
Proof.
  intros -> H. unfold batch_exec_input_factory, assert.
  now rewrite (proj2 (Z.eqb_neq _ _) H).
Qed.

Lemma batch_exec_input_factory_arity_chained (cids : list Z) :
  Built.arity_ok il n -> cl = Some cids -> len cids <> n ->
  batch_exec_input_factory native rd app_id md n il cl =
  Raise (AssertionError "Number of chainedIds should match number of messages").
Proof.
  intros Hi -> H. unfold batch_exec_input_factory, assert.
  destruct il as [inputs|]; cbn in Hi.
  - rewrite (proj2 (Z.eqb_eq _ _) Hi). cbn [Py.bind].
    now rewrite (proj2 (Z.eqb_neq _ _) H).
  - cbn [Py.bind]. now rewrite (proj2 (Z.eqb_neq _ _) H).
Qed.

(** With the chain-linkage identifiers omitted and at least one message to
    build, the first round of the loop raises [TypeError]. *)
Lemma batch_exec_input_factory_no_chained_ids :
  1 <= n -> il = None -> cl = None ->
  batch_exec_input_factory native rd app_id md n il cl = Raise TypeError.
Proof.
  intros Hn -> ->. unfold batch_exec_input_factory, range. cbn [Py.bind].
  destruct (Z.to_nat n) as [|k] eqn:Ek; [lia|]. reflexivity.
Qed.

End Bound.

Lemma bound_message_appId native md app_id il cl i m :
  bound_message native md app_id il cl i m -> Msg.appId m = app_id.
Proof.
  intros (cid & _ & H). destruct il as [inputs|].
  - destruct H as (input & data & _ & _ & ->). reflexivity.
  - subst m. reflexivity.
Qed.

End BuilderFacts.

(** ** The submission client and the poll engine *)

Module InvokeFacts.
Import Invoke Protocol.

Lemma emit_emit {A : Type} (evs evs' : list event) (r : run A) :
  emit evs (emit evs' r) = emit (evs ++ evs') r.
Proof. unfold emit. cbn. now rewrite app_assoc. Qed.

Lemma bind_ret {A B : Type} (a : A) (k : A -> io B) (script : list http_response) :
  bind (ret a) k script = k a script.
Proof. unfold bind, ret, emit. cbn. now destruct (k a script). Qed.

Lemma bind_emit {A B : Type} (evs : list event) (m : io A) (k : A -> io B)
  (script : list http_response) :
  bind (fun s => emit evs (m s)) k script = emit evs (bind m k script).
Proof.
  unfold bind, emit. cbn. destruct (out (m script)); cbn; try reflexivity.
  now rewrite app_assoc.
Qed.

(** *** Phase 1: admission *)

Lemma admission_loop_refused url json_msg num_retries secs i idxs last r script :
  refused r = true ->
  admission_loop url json_msg num_retries secs (i :: idxs) last (r :: script) =
  emit [EvPost url json_msg;
        EvPrint (NoAvailableHostsRetrying (Z.of_nat i + 1) num_retries);
        EvSleep secs]
       (admission_loop url json_msg num_retries secs idxs (Some r) script).
Proof.
  unfold refused. intros H. cbn [admission_loop]. unfold bind at 1. cbn [post out trace unread].
  rewrite H. unfold bind, print, sleep, emit. cbn.
  destruct (out (admission_loop url json_msg num_retries secs idxs (Some r) script));
    reflexivity.
Qed.

Lemma admission_loop_answered url json_msg num_retries secs i idxs last r script :
  refused r = false ->
  admission_loop url json_msg num_retries secs (i :: idxs) last (r :: script) =
  {| out := Returned (Some r); trace := [EvPost url json_msg]; unread := script |}.
Proof.
  unfold refused. intros H. cbn [admission_loop]. unfold bind. cbn [post out trace unread].
  rewrite H. reflexivity.
Qed.

(** [k] refusals, fewer than the rounds left, then another answer: [k + 1]
    POSTs, a backoff after each refusal, and the loop yields that answer. *)
Lemma admission_loop_retries url json_msg num_retries (k start n : nat) last r rest :
  (k < n)%nat -> refused r = false ->
  admission_loop url json_msg num_retries (1 # 2)%Q (seq start n) last
                 (repeat no_available_hosts k ++ r :: rest) =
  {| out := Returned (Some r);
     trace := flat_map (retry_round url json_msg num_retries) (seq start k)
              ++ [EvPost url json_msg];
     unread := rest |}.
Proof.
  revert start n last. induction k as [|k IH]; intros start n last Hk Hr.
  - destruct n as [|n]; [lia|]. cbn [repeat app seq flat_map].
    now apply admission_loop_answered.
  - destruct n as [|n]; [lia|]. cbn [repeat app seq flat_map].
    rewrite admission_loop_refused by reflexivity.
    rewrite IH by (lia || assumption). reflexivity.
Qed.

(** Refusals for every round: the loop stops after [n] POSTs, leaving the
    last refusal in [response]. *)
Lemma admission_loop_exhausted url json_msg num_retries (start n : nat) last rest :
  admission_loop url json_msg num_retries (1 # 2)%Q (seq start n) last
                 (repeat no_available_hosts n ++ rest) =
  {| out := Returned (match n with O => last | S _ => Some no_available_hosts end);
     trace := flat_map (retry_round url json_msg num_retries) (seq start n);
     unread := rest |}.
Proof.
  revert start last. induction n as [|n IH]; intros start last.
  - reflexivity.
  - cbn [repeat app seq flat_map].
    rewrite admission_loop_refused by reflexivity. rewrite IH.
    unfold emit, retry_round. cbn. now destruct n.
Qed.

Lemma submissions_app (tr tr' : list event) :
  submissions (tr ++ tr') = (submissions tr + submissions tr')%nat.
Proof. unfold submissions. now rewrite filter_app, length_app. Qed.

Lemma submissions_retry_rounds url req num_retries (start k : nat) :
  submissions (flat_map (retry_round url (EXECUTE_BATCH req) num_retries) (seq start k)) = k.
Proof.
  revert start. induction k as [|k IH]; intros start; [reflexivity|].
  cbn [seq flat_map]. rewrite submissions_app, IH. reflexivity.
Qed.

Lemma submissions_admission_trace url req num_retries (k : nat) :
  submissions (admission_trace url (EXECUTE_BATCH req) num_retries k) = Datatypes.S k.
Proof.
  unfold admission_trace. rewrite submissions_app, submissions_retry_rounds.
  cbn. lia.
Qed.

Lemma polls_app (tr tr' : list event) :
  polls (tr ++ tr') = (polls tr + polls tr')%nat.
Proof. unfold polls. now rewrite filter_app, length_app. Qed.

Lemma polls_admission_trace url req num_retries (k : nat) :
  polls (admission_trace url (EXECUTE_BATCH req) num_retries k) = 0%nat.
Proof.
  assert (H : forall start,
             polls (flat_map (retry_round url (EXECUTE_BATCH req) num_retries)
                             (seq start k)) = 0%nat).
  { induction k as [|k IH]; intros start; [reflexivity|].
    cbn [seq flat_map]. rewrite polls_app, IH. reflexivity. }
  unfold admission_trace. rewrite polls_app, H. reflexivity.
Qed.

(** *** Phase 2: completion polling *)

Section Poll.

Variables (poll_period : Q) (url : string) (json_msg : planner_msg).

Let head : list event := [EvSleep poll_period; EvPost url json_msg].

Lemma poll_loop_not_registered ber_status r rest :
  status_code r <> 200 -> text r = Plain "App not registered in results" ->
  poll_loop poll_period url json_msg ber_status (r :: rest) =
  emit head (poll_loop poll_period url json_msg ber_status rest).
Proof.
  intros Hc Ht. cbn [poll_loop].
  rewrite (proj2 (Z.eqb_neq _ _) Hc), Ht. reflexivity.
Qed.

Lemma poll_loop_unfinished ber_status r st rest :
  status_code r = 200 -> text r = StatusJson st -> Status.finished st = false ->
  poll_loop poll_period url json_msg ber_status (r :: rest) =
  emit head (poll_loop poll_period url json_msg (Some st) rest).
Proof.
  intros Hc Ht Hf. cbn [poll_loop].
  rewrite (proj2 (Z.eqb_eq _ _) Hc), Ht. cbn [negb Parse]. now rewrite Hf.
Qed.

Lemma poll_loop_finished ber_status r st rest :
  status_code r = 200 -> text r = StatusJson st -> Status.finished st = true ->
  poll_loop poll_period url json_msg ber_status (r :: rest) =
  {| out := Returned (Some st); trace := head; unread := rest |}.
Proof.
  intros Hc Ht Hf. cbn [poll_loop].
  rewrite (proj2 (Z.eqb_eq _ _) Hc), Ht. cbn [negb Parse]. now rewrite Hf.
Qed.

Lemma poll_loop_failed ber_status r rest :
  status_code r <> 200 ->
  text_eq (text r) "App not registered in results" = false ->
  poll_loop poll_period url json_msg ber_status (r :: rest) =
  {| out := Returned ber_status;
     trace := head ++ [EvPrint (PostRequestFailed (status_code r) (text r))];
     unread := rest |}.
Proof.
  intros Hc Ht. cbn [poll_loop].
  rewrite (proj2 (Z.eqb_neq _ _) Hc), Ht. reflexivity.
Qed.

Lemma poll_loop_no_answer ber_status :
  poll_loop poll_period url json_msg ber_status [] =
  {| out := Waiting; trace := head; unread := [] |}.
Proof. reflexivity. Qed.

End Poll.

(** The polling loop posts status queries only. *)
Lemma poll_loop_posts poll_period url ber_status0 ber_status script :
  Forall (fun e => is_submission e = false /\ is_preload e = false)
         (trace (poll_loop poll_period url (EXECUTE_BATCH_STATUS ber_status0)
                           ber_status script)).
Proof.
  revert ber_status. induction script as [|r rest IH]; intros ber_status.
  - cbn. repeat constructor.
  - cbn [poll_loop].
    destruct (negb (status_code r =? 200)).
    + destruct (text_eq (text r) "App not registered in results").
      * cbn. repeat constructor. apply IH.
      * cbn. repeat constructor.
    + destruct (Parse (text r)) as [st|e]; [destruct (Status.finished st)|].
      * cbn. repeat constructor.
      * cbn. repeat constructor. apply IH.
      * cbn. repeat constructor.
Qed.

Lemma bind_returned {A B : Type} (m : io A) (k : A -> io B) script a tr u :
  m script = {| out := Returned a; trace := tr; unread := u |} ->
  bind m k script = emit tr (k a u).
Proof. intros E. unfold bind. rewrite E. reflexivity. Qed.

Lemma bind_raised {A B : Type} (m : io A) (k : A -> io B) script e tr u :
  m script = {| out := Raised e; trace := tr; unread := u |} ->
  bind m k script = {| out := Raised e; trace := tr; unread := u |}.
Proof. intros E. unfold bind. rewrite E. reflexivity. Qed.

Lemma bind_waiting {A B : Type} (m : io A) (k : A -> io B) script tr u :
  m script = {| out := Waiting; trace := tr; unread := u |} ->
  bind m k script = {| out := Waiting; trace := tr; unread := u |}.
Proof. intros E. unfold bind. rewrite E. reflexivity. Qed.

Lemma emit_nil {A : Type} (r : run A) : emit [] r = r.
Proof. now destruct r. Qed.

(** *** The entry points *)

(** After [k < 10] refusals and a 200 answer carrying a status,
    [invoke_and_await] has made the [k + 1] POSTs of the admission and goes
    on polling with that status, [expectedNumMessages] set by the client. *)
Lemma invoke_and_await_accepted url json_msg n (k : nat) st0 rest :
  (k < 10)%nat ->
  invoke_and_await url json_msg n (repeat no_available_hosts k ++ ok200 st0 :: rest) =
  emit (admission_trace url json_msg 10 k)
       (completion url (Status.set_expectedNumMessages n st0) rest).
Proof.
  intros Hk. unfold invoke_and_await.
  change (range 10) with (seq 0 10).
  erewrite bind_returned by (apply admission_loop_retries; [exact Hk | reflexivity]).
  cbn [read_local]. rewrite bind_ret.
  cbn [ok200 status_code text Z.eqb Pos.eqb negb].
  rewrite bind_ret. cbn [Parse lift]. rewrite bind_ret.
  reflexivity.
Qed.

(** Ten refusals: [invoke_and_await] stops submitting, logs the failure and
    fails to parse the refusal as a status. *)
Lemma invoke_and_await_exhausted url json_msg n rest :
  invoke_and_await url json_msg n (repeat no_available_hosts 10 ++ rest) =
  {| out := Raised ParseError;
     trace := flat_map (retry_round url json_msg 10) (seq 0 10)
              ++ [EvPrint (PostRequestFailed 500 (Plain "No available hosts"))];
     unread := rest |}.
Proof.
  unfold invoke_and_await. change (range 10) with (seq 0 10).
  erewrite bind_returned by apply admission_loop_exhausted.
  cbn [read_local]. rewrite bind_ret. reflexivity.
Qed.

Lemma invoke_without_wait_accepted url json_msg (k : nat) r rest :
  (k < 100)%nat -> status_code r = 200 ->
  invoke_without_wait url json_msg (repeat no_available_hosts k ++ r :: rest) =
  {| out := Returned tt; trace := admission_trace url json_msg 100 k; unread := rest |}.
Proof.
  intros Hk Hr. unfold invoke_without_wait.
  change (range 100) with (seq 0 100).
  erewrite bind_returned
    by (apply admission_loop_retries;
        [exact Hk | unfold refused; rewrite Hr; reflexivity]).
  cbn [read_local]. rewrite bind_ret, Hr.
  unfold emit, ret. cbn [Z.eqb Pos.eqb negb out trace unread].
  now rewrite app_nil_r.
Qed.

Lemma invoke_without_wait_exhausted url json_msg rest :
  invoke_without_wait url json_msg (repeat no_available_hosts 100 ++ rest) =
  {| out := Returned tt;
     trace := flat_map (retry_round url json_msg 100) (seq 0 100)
              ++ [EvPrint (PostRequestFailed 500 (Plain "No available hosts"))];
     unread := rest |}.
Proof.
  unfold invoke_without_wait. change (range 100) with (seq 0 100).
  erewrite bind_returned by apply admission_loop_exhausted.
  cbn [read_local]. rewrite bind_ret. reflexivity.
Qed.

(** Without a host list [invoke_wasm] is the submission of the fresh
    request and the wait for its completion. *)
Lemma invoke_wasm_plain gid url md n rd rd' dict_out script :
  resolve_req_dict rd md = Ok rd' ->
  invoke_wasm gid url md n rd dict_out None script =
  bind (invoke_and_await url (EXECUTE_BATCH (Batch.batch_exec_factory gid rd' md n))
                         (expected_num_messages md n))
       (fun result => ret (wrap dict_out result)) script.
Proof.
  intros E. unfold invoke_wasm. rewrite E. cbn [lift]. rewrite !bind_ret.
  unfold wrap. unfold bind.
  destruct (out (invoke_and_await _ _ _ script)); try reflexivity.
  now destruct dict_out.
Qed.

Lemma query_result_unfold app_id url script :
  query_result app_id url script =
  bind (poll_loop (1 # 2)%Q url (EXECUTE_BATCH_STATUS (status_of_app_id app_id)) None)
       (read_local "ber_status") script.
Proof. reflexivity. Qed.

(** *** Phase 2 from the entry points *)

Lemma trace_completion url st script :
  trace (completion url st script) =
  trace (poll_loop (2 # 1)%Q url (EXECUTE_BATCH_STATUS st) (Some st) script).
Proof.
  unfold completion, bind.
  destruct (out (poll_loop _ _ _ _ script)) as [[s|]| |]; cbn; try reflexivity;
    apply app_nil_r.
Qed.

Lemma submissions_completion url st script :
  submissions (trace (completion url st script)) = 0%nat.
Proof.
  rewrite trace_completion. unfold submissions.
  pose proof (poll_loop_posts (2 # 1)%Q url st (Some st) script) as H.
  induction H as [|e tr [He _] _ IH]; [reflexivity|].
  cbn [filter]. now rewrite He.
Qed.

Lemma invoke_and_await_accepted_at_once url json_msg n st0 rest :
  invoke_and_await url json_msg n (ok200 st0 :: rest) =
  emit [EvPost url json_msg]
       (completion url (Status.set_expectedNumMessages n st0) rest).
Proof. apply (invoke_and_await_accepted url json_msg n 0 st0 rest). lia. Qed.

(** In phase 2 of [invoke_and_await] a non-200 answer other than the
    not-registered one ends the loop, and the call returns the status seen
    last: here the one sent, when it is the answer to the first poll. *)
Lemma completion_transport_error url st r rest :
  status_code r <> 200 ->
  text_eq (text r) "App not registered in results" = false ->
  completion url st (r :: rest) =
  {| out := Returned st;
     trace := [EvSleep (2 # 1)%Q; EvPost url (EXECUTE_BATCH_STATUS st);
               EvPrint (PostRequestFailed (status_code r) (text r))];
     unread := rest |}.
Proof.
  intros Hc Ht. unfold completion.
  erewrite bind_returned by (apply poll_loop_failed; assumption).
  reflexivity.
Qed.

(** [query_result] does the same once it has seen a status. *)
Lemma query_result_transport_error_after_status app_id url st r rest :
  Status.finished st = false ->
  status_code r <> 200 ->
  text_eq (text r) "App not registered in results" = false ->
  out (query_result app_id url (ok200 st :: r :: rest)) = Returned st.
Proof.
  intros Hf Hc Ht. rewrite query_result_unfold.
  erewrite bind_returned.
  2:{ rewrite (poll_loop_unfinished _ _ _ _ _ st) by (reflexivity || assumption).
      rewrite poll_loop_failed by assumption. reflexivity. }
  reflexivity.
Qed.

(** Any number of not-registered answers and then a transport error:
    [query_result] still has no status to return. *)
Lemma query_result_raises_before_any_status app_id url codes r rest :
  Forall (fun code => code <> 200) codes ->
  status_code r <> 200 ->
  text_eq (text r) "App not registered in results" = false ->
  out (query_result app_id url (map not_registered codes ++ r :: rest)) =
  Raised (UnboundLocalError "ber_status").
Proof.
  intros Hcodes Hc Ht. rewrite query_result_unfold.
  assert (E : forall p js,
             out (poll_loop p url js None (map not_registered codes ++ r :: rest))
             = Returned None /\
             unread (poll_loop p url js None (map not_registered codes ++ r :: rest))
             = rest).
  { intros p js. induction Hcodes as [|code codes Hcode _ IH]; cbn [map app].
    - rewrite poll_loop_failed by assumption. split; reflexivity.
    - rewrite poll_loop_not_registered by (assumption || reflexivity).
      exact IH. }
  unfold bind. destruct (E (1 # 2)%Q (EXECUTE_BATCH_STATUS (status_of_app_id app_id)))
    as [-> _].
  reflexivity.
Qed.

(** Polling in general: after any number of answers that are unfinished
    statuses, the first finished status is what the loop yields, and there
    was one poll per answer read. *)
Lemma poll_loop_until_finished poll_period url json_msg ber_status pending st rest :
  Forall (fun s => Status.finished s = false) pending ->
  Status.finished st = true ->
  let r := poll_loop poll_period url json_msg ber_status
                     (map ok200 pending ++ ok200 st :: rest) in
  out r = Returned (Some st) /\
  trace r = flat_map (fun _ => [EvSleep poll_period; EvPost url json_msg])
                     (pending ++ [st]) /\
  unread r = rest.
Proof.
  intros Hp Hf. revert ber_status.
  induction Hp as [|s pending Hs _ IH]; intros ber_status; cbn [map app flat_map].
  - rewrite (poll_loop_finished _ _ _ _ _ st) by (reflexivity || assumption).
    repeat split.
  - rewrite (poll_loop_unfinished _ _ _ _ _ s) by (reflexivity || assumption).
    destruct (IH (Some s)) as (Ho & Htr & Hu). cbn zeta in *.
    unfold emit. cbn [out trace unread]. rewrite Ho, Htr, Hu. repeat split.
Qed.

End InvokeFacts.

(** ** The placement preload *)

Module PreloadFacts.
Import Invoke Protocol BuilderFacts InvokeFacts.

Lemma for_each_app {I S : Type} (body : I -> S -> result S) (a b : list I) (s : S) :
  for_each body (a ++ b) s = (s' <- for_each body a s ;; for_each body b s').
Proof.
  revert s. induction a as [|i a IH]; intros s; cbn [app for_each Py.bind]; [reflexivity|].
  destruct (body i s) as [s'|e]; [apply IH | reflexivity].
Qed.

Lemma setitem_middle {A : Type} (f : A -> A) (l r : list A) (a : A) (i : nat) :
  List.length l = i -> setitem (l ++ a :: r) i f = Ok (l ++ f a :: r).
Proof.
  intros <-. induction l as [|b l IH]; simpl; [reflexivity | now rewrite IH].
Qed.

Lemma getitem_nth (hl : list string) (i : nat) :
  (i < List.length hl)%nat -> getitem hl i = Ok (nth i hl EmptyString).
Proof.
  intros Hi. unfold getitem.
  rewrite (nth_error_nth' hl EmptyString Hi). reflexivity.
Qed.

Lemma getitem_out_of_range {A : Type} (l : list A) (i : nat) :
  (List.length l <= i)%nat -> getitem l i = Raise IndexError.
Proof.
  intros Hi. unfold getitem.
  now rewrite (proj2 (nth_error_None l i) Hi).
Qed.

Section Pin.

Variables (md : msg_dict) (gid : Z) (rd : req_dict) (hl : list string).

Let m0 : Msg.t := Batch.message_factory md gid.
Let request (msgs : list Msg.t) : Req.t := Req.mk gid (rd_user rd) (rd_function rd) msgs.
Let pinned (k : nat) : list Msg.t := map (pinned_message md gid hl) (seq 0 k).

(** The padding loop brings a request of [a] template copies to
    [expected_num_messages] copies, and leaves a longer one as it is. *)
Lemma pad_messages_closed (N : Z) (a : nat) :
  pad_messages md N (request (repeat m0 a)) =
  request (repeat m0 (a + Z.to_nat (N - Z.of_nat a))).
Proof.
  unfold pad_messages, range2, request. cbn [Req.messages].
  unfold len. rewrite repeat_length, Nat2Z.id.
  apply (fold_left_invariant
           (fun k req => req = Req.mk gid (rd_user rd) (rd_function rd) (repeat m0 k))).
  - reflexivity.
  - intros i t _ ->. unfold Req.append, Req.set_messages. cbn.
    fold m0. now rewrite <- repeat_cons.
Qed.

(** The pinning loop after [k] rounds, [k] within the host list and the
    messages: the first [k] messages are pinned, the others untouched. *)
Lemma pin_rounds (T k : nat) :
  (k <= List.length hl)%nat -> (k <= T)%nat ->
  for_each
    (fun (group_idx : nat) req =>
       msgs <- setitem (Req.messages req) group_idx
                       (Msg.set_groupIdx (Z.of_nat group_idx)) ;;
       host <- getitem hl group_idx ;;
       msgs <- setitem msgs group_idx (Msg.set_executedHost host) ;;
       Ok (Req.set_messages msgs req))
    (seq 0 k) (request (repeat m0 T)) =
  Ok (request (pinned k ++ repeat m0 (T - k))).
Proof.
  induction k as [|k IH]; intros Hk HT.
  - cbn. now rewrite Nat.sub_0_r.
  - rewrite seq_S, for_each_app, IH by lia. cbn [Py.bind Nat.add for_each].
    unfold request at 1. cbn [Req.messages].
    replace (T - k)%nat with (Datatypes.S (T - Datatypes.S k)) by lia.
    cbn [repeat].
    assert (Hlen : List.length (pinned k) = k)
      by (unfold pinned; now rewrite length_map, length_seq).
    rewrite setitem_middle by exact Hlen. cbn [Py.bind].
    rewrite getitem_nth by lia. cbn [Py.bind].
    rewrite setitem_middle by exact Hlen. cbn [Py.bind].
    unfold Req.set_messages, request. cbn [Req.appId Req.user Req.function].
    do 2 f_equal. unfold pinned. rewrite seq_S, map_app, <- app_assoc.
    reflexivity.
Qed.

(** As many messages as hosts: every message gets pinned. *)
Lemma pin_hosts_closed :
  pin_hosts hl (request (repeat m0 (List.length hl))) =
  Ok (preloaded_request gid rd md hl).
Proof.
  unfold pin_hosts, range, request. cbn [Req.messages].
  unfold len. rewrite repeat_length, Nat2Z.id.
  fold (request (repeat m0 (List.length hl))).
  rewrite pin_rounds by lia.
  rewrite Nat.sub_diag, app_nil_r. reflexivity.
Qed.

(** More messages than hosts: the round after the last host raises. *)
Lemma pin_hosts_short_host_list (T : nat) :
  (List.length hl < T)%nat ->
  pin_hosts hl (request (repeat m0 T)) = Raise IndexError.
Proof.
  intros HT. unfold pin_hosts, range, request. cbn [Req.messages].
  unfold len. rewrite repeat_length, Nat2Z.id.
  fold (request (repeat m0 T)).
  assert (Hseq : seq 0 T = seq 0 (List.length hl)
                          ++ seq (List.length hl) (Datatypes.S (T - Datatypes.S (List.length hl)))).
  { rewrite <- seq_app. f_equal. lia. }
  rewrite Hseq, for_each_app, pin_rounds by lia. cbn [Py.bind Nat.add seq for_each].
  unfold request. cbn [Req.messages].
  replace (T - List.length hl)%nat
    with (Datatypes.S (T - Datatypes.S (List.length hl))) by lia.
  cbn [repeat].
  assert (Hlen : List.length (pinned (List.length hl)) = List.length hl)
    by (unfold pinned; now rewrite length_map, length_seq).
  rewrite setitem_middle by exact Hlen. cbn [Py.bind].
  rewrite getitem_out_of_range by lia. reflexivity.
Qed.



End Pin.

Lemma bind_assoc {A B C : Type} (m : io A) (k : A -> io B) (k' : B -> io C) script :
  bind (bind m k) k' script = bind m (fun a => bind (k a) k') script.
Proof.
  unfold bind, emit. destruct (out (m script)) as [a| |]; cbn; try reflexivity.
  destruct (out (k a (unread (m script)))); cbn; try reflexivity.
  now rewrite app_assoc.
Qed.

Lemma bind_raise {A B : Type} (e : exn) (k : A -> io B) script :
  bind (raise e) k script = raise e script.
Proof. reflexivity. Qed.

Ltac io_norm := repeat (rewrite bind_assoc || rewrite bind_ret).

Section HostList.

Variables (gid : Z) (url : string) (md : msg_dict) (n : Z)
          (rd : option req_dict) (rd' : req_dict) (dict_out : bool)
          (hl : list string).

Hypothesis Hrd : resolve_req_dict rd md = Ok rd'.

Let N : Z := expected_num_messages md n.
Let preload : Req.t := preloaded_request gid rd' md hl.

Lemma preload_built :
  len hl = N -> n <= N ->
  pin_hosts hl (pad_messages md N (Batch.batch_exec_factory gid rd' md n)) = Ok preload.
Proof.
  intros HN Hn. rewrite batch_exec_factory_closed, pad_messages_closed.
  replace (Z.to_nat n + Z.to_nat (N - Z.of_nat (Z.to_nat n)))%nat
    with (List.length hl) by (unfold len in HN; lia).
  apply pin_hosts_closed.
Qed.

Lemma preload_not_built :
  len hl = N -> N < n ->
  pin_hosts hl (pad_messages md N (Batch.batch_exec_factory gid rd' md n)) =
  Raise IndexError.
Proof.
  intros HN Hn. rewrite batch_exec_factory_closed, pad_messages_closed.
  apply pin_hosts_short_host_list. unfold len in HN. lia.
Qed.

(** A host list of the wrong length: the assertion fails before any POST. *)
Lemma invoke_wasm_host_list_mismatch script :
  len hl <> N ->
  invoke_wasm gid url md n rd dict_out (Some hl) script =
  {| out := Raised (AssertionError EmptyString); trace := []; unread := script |}.
Proof.
  intros HN. unfold invoke_wasm. rewrite Hrd. cbn [lift]. io_norm.
  fold N. unfold assert. rewrite (proj2 (Z.eqb_neq _ _) HN). reflexivity.
Qed.

(** More messages requested than the expected count: pinning the message
    after the last host raises before any POST. *)
Lemma invoke_wasm_more_messages_than_hosts script :
  len hl = N -> N < n ->
  invoke_wasm gid url md n rd dict_out (Some hl) script =
  {| out := Raised IndexError; trace := []; unread := script |}.
Proof.
  intros HN Hn. unfold invoke_wasm. rewrite Hrd. cbn [lift]. io_norm.
  fold N. unfold assert. rewrite (proj2 (Z.eqb_eq _ _) HN). cbn [lift].
  io_norm.
  rewrite (preload_not_built HN Hn). reflexivity.
Qed.

(** The preload is the first thing sent ... *)
Lemma invoke_wasm_preload_no_answer :
  len hl = N -> n <= N ->
  invoke_wasm gid url md n rd dict_out (Some hl) [] =
  {| out := Waiting; trace := [EvPost url (PRELOAD_SCHEDULING_DECISION preload)];
     unread := [] |}.
Proof.
  intros HN Hn. unfold invoke_wasm. rewrite Hrd. cbn [lift]. io_norm.
  fold N. unfold assert. rewrite (proj2 (Z.eqb_eq _ _) HN). cbn [lift].
  io_norm.
  rewrite (preload_built HN Hn). cbn [lift]. io_norm. reflexivity.
Qed.

(** ... a non-200 answer to it raises [RuntimeError] and nothing more is
    sent ... *)
Lemma invoke_wasm_preload_rejected r rest :
  len hl = N -> n <= N -> status_code r <> 200 ->
  invoke_wasm gid url md n rd dict_out (Some hl) (r :: rest) =
  {| out := Raised (RuntimeError "Error preloading scheduling decision!");
     trace := [EvPost url (PRELOAD_SCHEDULING_DECISION preload);
               EvPrint (ErrorPreloading (status_code r) (text r))];
     unread := rest |}.
Proof.
  intros HN Hn Hr. unfold invoke_wasm. rewrite Hrd. cbn [lift]. io_norm.
  fold N. unfold assert. rewrite (proj2 (Z.eqb_eq _ _) HN). cbn [lift].
  io_norm.
  rewrite (preload_built HN Hn). cbn [lift]. io_norm.
  erewrite bind_returned by reflexivity.
  rewrite (proj2 (Z.eqb_neq _ _) Hr). reflexivity.
Qed.

(** ... and after a 200 answer the call goes on as it does without a host
    list. *)
Lemma invoke_wasm_preload_accepted r rest :
  len hl = N -> n <= N -> status_code r = 200 ->
  invoke_wasm gid url md n rd dict_out (Some hl) (r :: rest) =
  emit [EvPost url (PRELOAD_SCHEDULING_DECISION preload)]
       (invoke_wasm gid url md n rd dict_out None rest).
Proof.
  intros HN Hn Hr. rewrite (invoke_wasm_plain _ _ _ _ _ rd' _ _ Hrd).
  unfold invoke_wasm. rewrite Hrd. cbn [lift]. io_norm.
  fold N. unfold assert. rewrite (proj2 (Z.eqb_eq _ _) HN). cbn [lift].
  io_norm.
  rewrite (preload_built HN Hn). cbn [lift]. io_norm.
  erewrite bind_returned by reflexivity.
  rewrite (proj2 (Z.eqb_eq _ _) Hr). cbn [negb]. rewrite bind_ret.
  f_equal. unfold wrap, bind.
  destruct (out (invoke_and_await _ _ _ rest)); try reflexivity.
  now destruct dict_out.
Qed.

End HostList.

End PreloadFacts.

(** ** More on the serialiser *)

Module SerializerMore.
Import Struct Batch Layout Utf8Facts SerializerFacts CharReader.

Ltac ok_inj :=
  match goal with
  | |- Ok ?l = Ok ?b -> _ =>
      let E := fresh in intros E; replace b with l by congruence; clear E
  end.

Ltac test_head :=
  match goal with
  | |- (if ?t then _ else _) = _ =>
      match t with
      | context [?a <=? ?b] => destruct (Z.leb_spec a b); try lia
      | context [?a <? ?b] => destruct (Z.ltb_spec a b); try lia
      end
  end; cbn [andb negb].

Lemma read_char_encode_char (c : Z) (b r : list Z) :
  Utf8.encode_char c = Ok b -> read_char (b ++ r) = Some (c, r).
Proof.
  unfold Utf8.encode_char.
  destruct (Z.ltb_spec c 0); [discriminate|].
  destruct (Z.ltb_spec c 128).
  { ok_inj. cbn [app read_char]. repeat test_head. reflexivity. }
  destruct (Z.ltb_spec c 2048).
  { ok_inj. cbn [app read_char].
    assert (194 <= 192 + c / 64 < 224) by (Z.to_euclidean_division_equations; lia).
    repeat test_head. do 2 f_equal. Z.to_euclidean_division_equations; lia. }
  destruct ((55296 <=? c) && (c <? 57344)); [discriminate|].
  destruct (Z.ltb_spec c 65536).
  { ok_inj. cbn [app read_char].
    assert (224 <= 224 + c / 4096 < 240) by (Z.to_euclidean_division_equations; lia).
    repeat test_head. do 2 f_equal. Z.to_euclidean_division_equations; lia. }
  destruct (Z.ltb_spec c 1114112); [|discriminate].
  ok_inj. cbn [app read_char].
  assert (240 <= 240 + c / 262144 < 248) by (Z.to_euclidean_division_equations; lia).
  repeat test_head. do 2 f_equal. Z.to_euclidean_division_equations; lia.
Qed.

Lemma read_chars_encode (s : pystr) (b r : list Z) :
  Utf8.encode s = Ok b -> read_chars (List.length s) (b ++ r) = Some (s, r).
Proof.
  revert b. induction s as [|c s IH]; intros b E; simpl in E.
  - replace b with (@nil Z) by congruence. reflexivity.
  - destruct (Utf8.encode_char c) as [bc|] eqn:Ec; [|discriminate]. simpl in E.
    destruct (Utf8.encode s) as [bs|] eqn:Es; [|discriminate]. simpl in E.
    replace b with (bc ++ bs) by congruence.
    cbn [List.length read_chars]. rewrite <- app_assoc.
    rewrite (read_char_encode_char c bc _ Ec), (IH bs eq_refl). reflexivity.
Qed.

Lemma encode_char_is_scalar (c : Z) (b : list Z) :
  Utf8.encode_char c = Ok b -> Utf8.scalar c.
Proof.
  unfold Utf8.encode_char, Utf8.scalar.
  destruct (Z.ltb_spec c 0); [discriminate|].
  destruct (Z.ltb_spec c 128); [intros _; lia|].
  destruct (Z.ltb_spec c 2048); [intros _; lia|].
  destruct (Z.leb_spec 55296 c); destruct (Z.ltb_spec c 57344); cbn [andb];
    try discriminate;
    (destruct (Z.ltb_spec c 65536); [intros _; lia|]);
    (destruct (Z.ltb_spec c 1114112); [intros _; lia | discriminate]).
Qed.

Lemma encode_is_scalar (s : pystr) (b : list Z) :
  Utf8.encode s = Ok b -> Forall Utf8.scalar s.
Proof.
  revert b. induction s as [|c s IH]; intros b E; simpl in E; [constructor|].
  destruct (Utf8.encode_char c) as [bc|] eqn:Ec; [|discriminate]. simpl in E.
  destruct (Utf8.encode s) as [bs|] eqn:Es; [|discriminate].
  constructor; [eapply encode_char_is_scalar; eassumption | eapply IH; reflexivity].
Qed.

Lemma pack_I_in_range (native : byteorder) (n : Z) (b : list Z) :
  pack_I native n = Ok b -> 0 <= n <= 4294967295.
Proof.
  unfold pack_I.
  destruct (Z.leb_spec 0 n); destruct (Z.leb_spec n 4294967295);
    cbn [andb]; try discriminate.
  intros _. lia.
Qed.

Lemma app_same_length {A : Type} (a b r1 r2 : list A) :
  List.length a = List.length b -> a ++ r1 = b ++ r2 -> a = b /\ r1 = r2.
Proof.
  revert b. induction a as [|x a IH]; intros [|y b] Hlen H; simpl in *;
    try discriminate.
  - auto.
  - injection H as -> H. destruct (IH b) as [-> ->]; [lia | assumption | auto].
Qed.

Lemma le32_injective (a b : Z) :
  0 <= a <= 4294967295 -> 0 <= b <= 4294967295 -> le32 a = le32 b -> a = b.
Proof.
  intros Ha Hb E.
  pose proof (read_le32_le32 a [] Ha) as Ra. pose proof (read_le32_le32 b [] Hb) as Rb.
  rewrite E in Ra. rewrite Ra in Rb. congruence.
Qed.

(** Two packed integers at the front of equal buffers are the same integer. *)
Lemma pack_I_injective (native : byteorder) (a b : Z) (x y r1 r2 : list Z) :
  pack_I native a = Ok x -> pack_I native b = Ok y ->
  x ++ r1 = y ++ r2 -> a = b /\ r1 = r2.
Proof.
  intros Ea Eb H.
  pose proof (pack_I_in_range _ _ _ Ea) as Ha.
  pose proof (pack_I_in_range _ _ _ Eb) as Hb.
  pose proof (pack_I_length _ _ _ Ea) as La.
  pose proof (pack_I_length _ _ _ Eb) as Lb.
  destruct (app_same_length x y r1 r2) as [Hxy Hr];
    [unfold len in *; lia | assumption |].
  split; [|exact Hr]. subst y.
  rewrite pack_I_ok in Ea, Eb by assumption.
  destruct native.
  - apply le32_injective; congruence.
  - apply le32_injective; try assumption.
    assert (E : rev (le32 a) = rev (le32 b)) by congruence.
    apply (f_equal (@rev Z)) in E. now rewrite !rev_involutive in E.
Qed.

Lemma written_string_injective (native : byteorder) (s1 s2 : pystr)
  (c1 c2 r1 r2 : list Z) :
  written_string native s1 = Ok c1 -> written_string native s2 = Ok c2 ->
  c1 ++ r1 = c2 ++ r2 -> s1 = s2 /\ r1 = r2.
Proof.
  unfold written_string.
  destruct (pack_I native (len s1)) as [n1|] eqn:En1; [|discriminate]. cbn [Py.bind].
  destruct (Utf8.encode s1) as [b1|] eqn:Eb1; [|discriminate]. cbn [Py.bind].
  destruct (pack_I native (len s2)) as [n2|] eqn:En2; [|discriminate]. cbn [Py.bind].
  destruct (Utf8.encode s2) as [b2|] eqn:Eb2; [|discriminate]. cbn [Py.bind].
  intros E1 E2 H.
  replace c1 with (n1 ++ b1) in H by congruence.
  replace c2 with (n2 ++ b2) in H by congruence.
  rewrite <- !app_assoc in H.
  destruct (pack_I_injective _ _ _ _ _ _ _ En1 En2 H) as [Hlen Hrest].
  pose proof (read_chars_encode s1 b1 r1 Eb1) as R1.
  pose proof (read_chars_encode s2 b2 r2 Eb2) as R2.
  assert (Hn : List.length s1 = List.length s2) by (unfold len in Hlen; lia).
  rewrite Hrest, Hn, R2 in R1. injection R1 as -> ->. auto.
Qed.

Lemma written_entries_injective (native : byteorder) (m1 m2 : map_data)
  (e1 e2 r1 r2 : list Z) :
  List.length m1 = List.length m2 ->
  written_entries native m1 = Ok e1 -> written_entries native m2 = Ok e2 ->
  e1 ++ r1 = e2 ++ r2 -> m1 = m2 /\ r1 = r2.
Proof.
  revert m2 e1 e2. induction m1 as [|[k1 v1] m1 IH]; intros [|[k2 v2] m2] e1 e2 Hlen;
    simpl in Hlen; try discriminate; cbn [written_entries].
  - intros E1 E2 H. replace e1 with (@nil Z) in H by congruence.
    replace e2 with (@nil Z) in H by congruence. auto.
  - destruct (written_string native k1) as [ck1|] eqn:Ek1; [|discriminate]. cbn [Py.bind].
    destruct (written_string native v1) as [cv1|] eqn:Ev1; [|discriminate]. cbn [Py.bind].
    destruct (written_entries native m1) as [x1|] eqn:Ex1; [|discriminate]. cbn [Py.bind].
    destruct (written_string native k2) as [ck2|] eqn:Ek2; [|discriminate]. cbn [Py.bind].
    destruct (written_string native v2) as [cv2|] eqn:Ev2; [|discriminate]. cbn [Py.bind].
    destruct (written_entries native m2) as [x2|] eqn:Ex2; [|discriminate]. cbn [Py.bind].
    intros E1 E2 H.
    replace e1 with (ck1 ++ cv1 ++ x1) in H by congruence.
    replace e2 with (ck2 ++ cv2 ++ x2) in H by congruence.
    rewrite <- !app_assoc in H.
    destruct (written_string_injective _ _ _ _ _ _ _ Ek1 Ek2 H) as [-> H'].
    destruct (written_string_injective _ _ _ _ _ _ _ Ev1 Ev2 H') as [-> H''].
    destruct (IH m2 x1 x2 ltac:(lia) eq_refl Ex2 H'') as [-> ->]. auto.
Qed.

Lemma written_string_returns_iff (native : byteorder) (s : pystr) :
  (exists chunk, written_string native s = Ok chunk) <-> packable s.
Proof.
  unfold written_string, packable. split.
  - intros [chunk E].
    destruct (pack_I native (len s)) as [n|] eqn:En; [|discriminate]. cbn [Py.bind] in E.
    destruct (Utf8.encode s) as [b|] eqn:Eb; [|discriminate].
    split; [apply (pack_I_in_range _ _ _ En) | eapply encode_is_scalar; eassumption].
  - intros [Hlen Hs]. destruct (encode_scalar s Hs) as [b Eb].
    rewrite pack_I_ok by (pose proof (len_nonneg s); lia). cbn [Py.bind].
    rewrite Eb. cbn [Py.bind]. eauto.
Qed.

(** [serialize_map] returns exactly on the packable maps. *)
Lemma serialize_map_returns_packable :
  forall native (m : map_data),
    (exists buf, serialize_map native m = Ok buf) <-> packable_map m.
Proof.
  intros native m. rewrite serialize_map_written. unfold packable_map. split.
  - intros [buf E].
    destruct (pack_I native (len m)) as [n|] eqn:En; [|discriminate]. cbn [Py.bind] in E.
    destruct (written_entries native m) as [r|] eqn:Er; [|discriminate].
    split; [apply (pack_I_in_range _ _ _ En)|].
    clear E En. revert r Er.
    induction m as [|[k v] m IH]; intros r; cbn [written_entries]; [constructor|].
    destruct (written_string native k) as [ck|] eqn:Ek; [|discriminate]. cbn [Py.bind].
    destruct (written_string native v) as [cv|] eqn:Ev; [|discriminate]. cbn [Py.bind].
    destruct (written_entries native m) as [r'|] eqn:Er'; [|discriminate].
    intros _. constructor; [|eapply IH; reflexivity]. cbn [fst snd].
    split; apply (written_string_returns_iff native); eauto.
  - intros [Hlen Hm].
    rewrite pack_I_ok by (pose proof (len_nonneg m); lia). cbn [Py.bind].
    assert (exists r, written_entries native m = Ok r) as [r Er].
    { clear Hlen.
      induction Hm as [|[k v] m [Hk Hv] _ [r IH]]; cbn [written_entries fst snd] in *.
      - eauto.
      - apply (written_string_returns_iff native) in Hk, Hv.
        destruct Hk as [ck Ek], Hv as [cv Ev].
        rewrite Ek, Ev, IH. cbn [Py.bind]. eauto. }
    rewrite Er. cbn [Py.bind]. eauto.
Qed.

(** The two encoders raise one exception each, and the serializer raises
    nothing else. *)
Lemma encode_char_raises c e :
  Utf8.encode_char c = Raise e -> e = UnicodeEncodeError.
Proof.
  unfold Utf8.encode_char.
  repeat match goal with |- context [if ?b then _ else _] => destruct b end;
    congruence.
Qed.

Lemma encode_raises s e : Utf8.encode s = Raise e -> e = UnicodeEncodeError.
Proof.
  induction s as [|c s IH]; cbn [Utf8.encode]; [discriminate|].
  destruct (Utf8.encode_char c) eqn:Ec; cbn [bind].
  - destruct (Utf8.encode s); cbn [bind]; [discriminate|].
    intros E. apply IH. congruence.
  - intros E. apply (encode_char_raises c). congruence.
Qed.

Lemma pack_I_raises native n e : pack_I native n = Raise e -> e = StructError.
Proof. unfold pack_I. destruct (_ && _); congruence. Qed.

Lemma serialize_string_raises native buf s e :
  serialize_string native buf s = Raise e ->
  e = StructError \/ e = UnicodeEncodeError.
Proof.
  unfold serialize_string.
  destruct (pack_I native (len s)) eqn:Ep; cbn [bind].
  - destruct (Utf8.encode s) eqn:Ee; cbn [bind]; [discriminate|].
    intros E. right. apply (encode_raises s). congruence.
  - intros E. left. apply (pack_I_raises native (len s)). congruence.
Qed.

Lemma for_each_raises {I S : Type} (P : exn -> Prop) (body : I -> S -> result S) :
  (forall i s e, body i s = Raise e -> P e) ->
  forall idxs s e, for_each body idxs s = Raise e -> P e.
Proof.
  intros Hb idxs. induction idxs as [|i idxs IH]; intros s e; cbn [for_each].
  - discriminate.
  - destruct (body i s) eqn:Eb.
    + apply IH.
    + intros E. apply (Hb i s). congruence.
Qed.

Lemma serialize_map_raises native m e :
  serialize_map native m = Raise e ->
  e = StructError \/ e = UnicodeEncodeError.
Proof.
  unfold serialize_map.
  destruct (pack_I native (len m)) eqn:Ep; cbn [bind].
  - apply (for_each_raises (fun e => e = StructError \/ e = UnicodeEncodeError)).
    intros [k v] s e0.
    destruct (serialize_string native s k) eqn:Ek; cbn [bind].
    + apply serialize_string_raises.
    + intros E. apply (serialize_string_raises native s k). congruence.
  - intros E. left. apply (pack_I_raises native (len m)). congruence.
Qed.

End SerializerMore.

(** ** More on the bound builder *)

Module BuilderMore.
Import Struct Batch Built SerializerFacts BuilderFacts SerializerMore.

Section Bound.

Variables (native : byteorder) (rd : req_dict) (app_id : Z) (md : msg_dict)
          (n : Z) (il : option (list map_data)) (cl : option (list Z)).

(** A returned request has passed both arity checks. *)
Lemma batch_exec_input_factory_checked (req : Req.t) :
  batch_exec_input_factory native rd app_id md n il cl = Ok req ->
  arity_ok il n /\ arity_ok cl n.
Proof.
  unfold batch_exec_input_factory, assert, arity_ok.
  destruct il as [inputs|], cl as [cids|];
    repeat match goal with
           | |- context [?a =? ?b] => destruct (Z.eqb_spec a b)
           end; cbn [Py.bind]; try discriminate; auto.
Qed.

(** The builder returns as soon as the checks pass, the chain-linkage
    identifiers are there when a message is to be built, and every input
    serialises. *)
Lemma batch_exec_input_factory_returns_when :
  arity_ok il n -> arity_ok cl n -> (0 < n -> cl <> None) ->
  (forall inputs, il = Some inputs ->
                  Forall (fun input => exists data, serialize_map native input = Ok data)
                         inputs) ->
  exists req, batch_exec_input_factory native rd app_id md n il cl = Ok req.
Proof.
  intros Hi Hc Hsome Hser. unfold batch_exec_input_factory.
  assert (Hai : match il with
                | Some l => assert (len l =? n)
                              "Number of input data should match number of messages"
                | None => Ok tt
                end = Ok tt).
  { destruct il as [inputs|]; [|reflexivity]. cbn in Hi.
    unfold assert. now rewrite (proj2 (Z.eqb_eq _ _) Hi). }
  assert (Hac : match cl with
                | Some l => assert (len l =? n)
                              "Number of chainedIds should match number of messages"
                | None => Ok tt
                end = Ok tt).
  { destruct cl as [cids|]; [|reflexivity]. cbn in Hc.
    unfold assert. now rewrite (proj2 (Z.eqb_eq _ _) Hc). }
  rewrite Hai, Hac. cbn [Py.bind]. unfold range.
  edestruct (for_each_returns
               (fun k (req : Req.t) => List.length (Req.messages req) = k))
    as (req & E & _); [| |exists req; exact E].
  - reflexivity.
  - intros i t Hi' Hlen. cbn beta.
    unfold Req.append, Req.set_messages.
    cbn [Py.bind Req.messages Req.appId Req.user Req.function].
    rewrite <- Hlen in *.
    destruct cl as [cids|]; [|exfalso; apply Hsome; [lia | reflexivity]].
    cbn in Hc.
    assert (Hcid : (List.length (Req.messages t) < List.length cids)%nat)
      by (unfold len in Hc; lia).
    destruct (getitem_ok cids _ Hcid) as (cid & _ & Ecid).
    destruct il as [inputs|].
    + cbn in Hi. specialize (Hser inputs eq_refl).
      assert (Hinp : (List.length (Req.messages t) < List.length inputs)%nat)
        by (unfold len in Hi; lia).
      destruct (getitem_ok inputs _ Hinp) as (input & Hnth & Einp).
      rewrite Einp. cbn [Py.bind].
      destruct (proj1 (Forall_forall _ _) Hser input) as [data Edata].
      { eapply nth_error_In; eassumption. }
      rewrite Edata. cbn [Py.bind]. rewrite setitem_last.
      cbn [Py.bind Req.messages Req.appId Req.user Req.function].
      rewrite Ecid. cbn [Py.bind]. rewrite setitem_last. cbn [Py.bind].
      eexists. split; [reflexivity|]. cbn. rewrite length_app. simpl. lia.
    + cbn [Py.bind Req.messages Req.appId Req.user Req.function].
      rewrite Ecid. cbn [Py.bind]. rewrite setitem_last. cbn [Py.bind].
      eexists. split; [reflexivity|]. cbn. rewrite length_app. simpl. lia.
Qed.

(** What a returned request tells about the arguments. *)
Lemma batch_exec_input_factory_returned (req : Req.t) :
  batch_exec_input_factory native rd app_id md n il cl = Ok req ->
  (0 < n -> cl <> None) /\
  (forall inputs, il = Some inputs ->
                  Forall (fun input => exists data, serialize_map native input = Ok data)
                         inputs).
Proof.
  intros E. destruct (batch_exec_input_factory_checked req E) as [Hi _].
  apply batch_exec_input_factory_built in E.
  destruct E as (_ & _ & _ & Hlen & Hmsgs). split.
  - intros Hn Hcl.
    destruct (nth_error (Req.messages req) 0) as [m|] eqn:E0.
    + destruct (Hmsgs _ _ E0) as (cid & (l & Hl & _) & _). congruence.
    + apply nth_error_None in E0. lia.
  - intros inputs ->. cbn in Hi. apply Forall_forall. intros input Hin.
    apply In_nth_error in Hin. destruct Hin as [i Hi'].
    assert (Hlt : (i < List.length (Req.messages req))%nat).
    { assert (i < List.length inputs)%nat
        by (apply nth_error_Some; congruence).
      unfold len in Hi. lia. }
    destruct (nth_error (Req.messages req) i) as [m|] eqn:Em;
      [|apply nth_error_None in Em; lia].
    destruct (Hmsgs _ _ Em) as (cid & _ & input' & data & Hnth & Hdata & _).
    exists data. congruence.
Qed.

End Bound.

End BuilderMore.

(** ** More on the polling loop *)

Module PollingFacts.
Import Invoke Protocol InvokeFacts PreloadFacts Polling.

Section Loop.

Variables (poll_period : Q) (url : string) (json_msg : planner_msg).

Lemma poll_loop_keeps ber_status r rest :
  keeps_polling r = true ->
  poll_loop poll_period url json_msg ber_status (r :: rest) =
  emit (poll_round poll_period url json_msg)
       (poll_loop poll_period url json_msg (observed ber_status r) rest).
Proof.
  unfold keeps_polling, observed. intros H. cbn [poll_loop].
  destruct (negb (status_code r =? 200)).
  - rewrite H. reflexivity.
  - destruct (Parse (text r)) as [st|e]; [|discriminate].
    destruct (Status.finished st); [discriminate | reflexivity].
Qed.

Lemma poll_loop_keeps_all ber_status pending rest :
  Forall (fun r => keeps_polling r = true) pending ->
  poll_loop poll_period url json_msg ber_status (pending ++ rest) =
  emit (flat_map (fun _ => poll_round poll_period url json_msg) pending)
       (poll_loop poll_period url json_msg (fold_left observed pending ber_status) rest).
Proof.
  intros H. revert ber_status.
  induction H as [|r pending Hr _ IH]; intros ber_status; cbn [app flat_map fold_left].
  - now rewrite emit_nil.
  - rewrite poll_loop_keeps by assumption. rewrite IH, emit_emit. reflexivity.
Qed.

(** The trace of the loop, whatever the answers: rounds of a sleep and a
    POST of the same message, one per answer read (and one more when the
    loop is left waiting), then at most one log line. *)
Lemma poll_loop_trace ber_status script :
  let r := poll_loop poll_period url json_msg ber_status script in
  exists (k : nat) tail,
    trace r = List.concat (repeat (poll_round poll_period url json_msg) k) ++ tail /\
    (tail = [] \/ exists code body, tail = [EvPrint (PostRequestFailed code body)]) /\
    (1 <= k)%nat /\
    match out r with
    | Waiting => k = Datatypes.S (List.length script) /\ unread r = []
    | _ => (k + List.length (unread r))%nat = List.length script
    end.
Proof.
  cbn zeta. revert ber_status. induction script as [|r rest IH]; intros ber_status.
  - exists 1%nat, []. cbn. repeat split; auto.
  - cbn [poll_loop].
    destruct (negb (status_code r =? 200)).
    + destruct (text_eq (text r) "App not registered in results").
      * destruct (IH ber_status) as (k & tail & Ht & Htail & _ & Hk).
        exists (Datatypes.S k), tail. unfold emit. cbn [trace out unread].
        rewrite Ht. cbn [repeat List.concat List.length]. rewrite <- !app_assoc.
        repeat split; try assumption; [lia|].
        destruct (out (poll_loop poll_period url json_msg ber_status rest));
          [lia | lia | destruct Hk; split; [lia | assumption]].
      * exists 1%nat, [EvPrint (PostRequestFailed (status_code r) (text r))].
        cbn. repeat split; eauto.
    + destruct (Parse (text r)) as [st|e]; [destruct (Status.finished st)|].
      * exists 1%nat, []. cbn. repeat split; auto.
      * destruct (IH (Some st)) as (k & tail & Ht & Htail & _ & Hk).
        exists (Datatypes.S k), tail. unfold emit. cbn [trace out unread].
        rewrite Ht. cbn [repeat List.concat List.length]. rewrite <- !app_assoc.
        repeat split; try assumption; [lia|].
        destruct (out (poll_loop poll_period url json_msg (Some st) rest));
          [lia | lia | destruct Hk; split; [lia | assumption]].
      * exists 1%nat, []. cbn. repeat split; auto.
Qed.

End Loop.

Lemma polls_rounds poll_period url st {A : Type} (l : list A) :
  polls (flat_map (fun _ => poll_round poll_period url (EXECUTE_BATCH_STATUS st)) l)
  = List.length l.
Proof.
  induction l as [|a l IH]; [reflexivity|].
  cbn [flat_map List.length]. rewrite polls_app, IH. reflexivity.
Qed.

End PollingFacts.

(** ** More on the admission loop *)

Module AdmissionFacts.
Import Invoke Protocol InvokeFacts PreloadFacts Polling PollingFacts.

Lemma posts_app (tr tr' : list event) :
  posts (tr ++ tr') = (posts tr + posts tr')%nat.
Proof. unfold posts. now rewrite filter_app, length_app. Qed.

Lemma submissions_le_posts (tr : list event) : (submissions tr <= posts tr)%nat.
Proof.
  unfold submissions, posts. induction tr as [|e tr IH]; [reflexivity|].
  cbn [filter]. destruct e as [u [req|st|req]| |]; cbn; lia.
Qed.

(** The admission loop never raises, posts at most once per round, and
    after at least one round has an answer in [response]. *)
Lemma admission_loop_bounded url json_msg num_retries secs idxs last script :
  idxs <> [] \/ last <> None ->
  let r := admission_loop url json_msg num_retries secs idxs last script in
  (out r = Waiting \/ exists answer, out r = Returned (Some answer)) /\
  (posts (trace r) <= List.length idxs)%nat.
Proof.
  cbn zeta. revert last script. induction idxs as [|i idxs IH]; intros last script H.
  - destruct H as [H|H]; [congruence|]. destruct last as [a|]; [|congruence].
    cbn. split; [eauto | lia].
  - destruct script as [|r script].
    + cbn. split; [auto | lia].
    + destruct (refused r) eqn:Hr.
      * rewrite admission_loop_refused by assumption.
        destruct (IH (Some r) script) as [Ho Hp]; [right; congruence|].
        unfold emit. cbn [out trace]. split; [exact Ho|].
        change (posts (?a :: ?b :: ?c :: ?t)) with (posts ([a; b; c] ++ t)).
        rewrite posts_app. cbn [List.length]. cbn. lia.
      * rewrite admission_loop_answered by assumption.
        cbn. split; [eauto | lia].
Qed.

(** [invoke_and_await] after its admission loop: waiting if the loop is;
    otherwise a log line unless the answer is a 200, then the polling with
    the status parsed from the answer, or [ParseError] if it does not
    parse. *)
Lemma invoke_and_await_after_admission url json_msg n script :
  let r0 := admission_loop url json_msg 10 (1 # 2)%Q (seq 0 10) None script in
  match out r0 with
  | Waiting =>
      invoke_and_await url json_msg n script =
      {| out := Waiting; trace := trace r0; unread := unread r0 |}
  | Returned (Some answer) =>
      invoke_and_await url json_msg n script =
      emit (trace r0
            ++ if negb (status_code answer =? 200)
               then [EvPrint (PostRequestFailed (status_code answer) (text answer))]
               else [])
           (match text answer with
            | StatusJson st0 =>
                completion url (Status.set_expectedNumMessages n st0) (unread r0)
            | Plain _ => raise ParseError (unread r0)
            end)
  | _ => True
  end.
Proof.
  cbn zeta. unfold invoke_and_await. change (range 10) with (seq 0 10).
  remember (admission_loop url json_msg 10 (1 # 2)%Q (seq 0 10) None script) as r0 eqn:E0.
  destruct r0 as [[[answer|]| |] tr0 u0]; cbn [out trace unread]; try exact I.
  - erewrite bind_returned by (symmetry; exact E0).
    cbn [read_local]. rewrite bind_ret.
    destruct (negb (status_code answer =? 200)).
    + erewrite bind_returned by reflexivity. rewrite emit_emit.
      destruct (text answer) as [t|st0]; cbn [Parse lift].
      * reflexivity.
      * rewrite bind_ret. reflexivity.
    + rewrite bind_ret, app_nil_r.
      destruct (text answer) as [t|st0]; cbn [Parse lift].
      * reflexivity.
      * rewrite bind_ret. reflexivity.
  - erewrite bind_waiting by (symmetry; exact E0). reflexivity.
Qed.

Lemma invoke_without_wait_after_admission url json_msg script :
  let r0 := admission_loop url json_msg 100 (1 # 2)%Q (seq 0 100) None script in
  match out r0 with
  | Waiting =>
      invoke_without_wait url json_msg script =
      {| out := Waiting; trace := trace r0; unread := unread r0 |}
  | Returned (Some answer) =>
      invoke_without_wait url json_msg script =
      {| out := Returned tt;
         trace := trace r0
                  ++ (if negb (status_code answer =? 200)
                      then [EvPrint (PostRequestFailed (status_code answer) (text answer))]
                      else []);
         unread := unread r0 |}
  | _ => True
  end.
Proof.
  cbn zeta. unfold invoke_without_wait. change (range 100) with (seq 0 100).
  remember (admission_loop url json_msg 100 (1 # 2)%Q (seq 0 100) None script) as r0 eqn:E0.
  destruct r0 as [[[answer|]| |] tr0 u0]; cbn [out trace unread]; try exact I.
  - erewrite bind_returned by (symmetry; exact E0).
    cbn [read_local]. rewrite bind_ret.
    destruct (negb (status_code answer =? 200)); reflexivity.
  - erewrite bind_waiting by (symmetry; exact E0). reflexivity.
Qed.

(** [invoke_and_await] posts the submission at most 10 times. *)
Lemma invoke_and_await_submissions_bound url req n script :
  (submissions (trace (invoke_and_await url (EXECUTE_BATCH req) n script)) <= 10)%nat.
Proof.
  pose proof (invoke_and_await_after_admission url (EXECUTE_BATCH req) n script) as Sh.
  destruct (admission_loop_bounded url (EXECUTE_BATCH req) 10 (1 # 2)%Q (seq 0 10)
              None script) as [Ho Hp]; [left; discriminate|].
  cbn zeta in Sh, Ho, Hp. rewrite length_seq in Hp.
  pose proof (submissions_le_posts
                (trace (admission_loop url (EXECUTE_BATCH req) 10 (1 # 2)%Q
                                       (seq 0 10) None script))) as Hs.
  destruct Ho as [Ho|[answer Ho]]; rewrite Ho in Sh; rewrite Sh.
  - cbn [trace]. lia.
  - unfold emit. cbn [trace]. rewrite !submissions_app.
    assert (H0 : submissions
                   (if negb (status_code answer =? 200)
                    then [EvPrint (PostRequestFailed (status_code answer) (text answer))]
                    else []) = 0%nat)
      by (destruct (negb (status_code answer =? 200)); reflexivity).
    rewrite H0. destruct (text answer) as [t|st0].
    + unfold raise. cbn [trace]. change (submissions []) with 0%nat. lia.
    + rewrite submissions_completion. lia.
Qed.

(** [invoke_without_wait] posts at most 100 times and never raises. *)
Lemma invoke_without_wait_bound url json_msg script :
  let r := invoke_without_wait url json_msg script in
  (posts (trace r) <= 100)%nat /\ (out r = Returned tt \/ out r = Waiting).
Proof.
  intros r. subst r.
  pose proof (invoke_without_wait_after_admission url json_msg script) as Sh.
  destruct (admission_loop_bounded url json_msg 100 (1 # 2)%Q (seq 0 100)
              None script) as [Ho Hp]; [left; discriminate|].
  cbn zeta in Sh, Ho, Hp. rewrite length_seq in Hp.
  destruct Ho as [Ho|[answer Ho]]; rewrite Ho in Sh; rewrite Sh; cbn [out trace].
  - split; [lia | auto].
  - split; [|auto]. rewrite posts_app.
    assert (H0 : posts
                   (if negb (status_code answer =? 200)
                    then [EvPrint (PostRequestFailed (status_code answer) (text answer))]
                    else []) = 0%nat)
      by (destruct (negb (status_code answer =? 200)); reflexivity).
    rewrite H0. lia.
Qed.

End AdmissionFacts.

(** ** More on pinning, padding and the traces *)

Module PinningFacts.
Import Invoke Protocol InvokeFacts PreloadFacts Polling PollingFacts AdmissionFacts Pinning.

Lemma pin_all_length hl i msgs : List.length (pin_all hl i msgs) = List.length msgs.
Proof.
  revert i. induction msgs as [|m msgs IH]; intros i; simpl; [reflexivity|].
  now rewrite IH.
Qed.

Lemma pin_all_app hl i a b :
  pin_all hl i (a ++ b) = pin_all hl i a ++ pin_all hl (i + List.length a) b.
Proof.
  revert i. induction a as [|m a IH]; intros i; simpl.
  - now rewrite Nat.add_0_r.
  - rewrite IH. do 3 f_equal. lia.
Qed.

Lemma pin_all_nth hl i msgs j m :
  nth_error msgs j = Some m ->
  nth_error (pin_all hl i msgs) j =
  Some (Msg.set_executedHost (nth (i + j) hl EmptyString)
          (Msg.set_groupIdx (Z.of_nat (i + j)) m)).
Proof.
  revert i j. induction msgs as [|x msgs IH]; intros i [|j] H; simpl in *;
    try discriminate.
  - injection H as ->. now rewrite Nat.add_0_r.
  - rewrite (IH (Datatypes.S i) j H). do 3 f_equal; lia.
Qed.

Lemma firstn_snoc {A : Type} (l : list A) (k : nat) (a : A) :
  nth_error l k = Some a -> firstn (Datatypes.S k) l = firstn k l ++ [a].
Proof.
  revert k. induction l as [|x l IH]; intros [|k] H; simpl in *; try discriminate.
  - now injection H as ->.
  - now rewrite (IH k H).
Qed.

Lemma skipn_nth_cons {A : Type} (l : list A) (k : nat) (a : A) :
  nth_error l k = Some a -> skipn k l = a :: skipn (Datatypes.S k) l.
Proof.
  revert k. induction l as [|x l IH]; intros [|k] H; simpl in *; try discriminate.
  - now injection H as ->.
  - exact (IH k H).
Qed.

Section Any.

Variables (hl : list string) (app_id : Z) (u f : string) (msgs : list Msg.t).

Let request (l : list Msg.t) : Req.t := Req.mk app_id u f l.

(** The pinning loop after [k] rounds on any messages. *)
Lemma pin_rounds_any (k : nat) :
  (k <= List.length hl)%nat -> (k <= List.length msgs)%nat ->
  for_each
    (fun (group_idx : nat) req =>
       msgs <- setitem (Req.messages req) group_idx
                       (Msg.set_groupIdx (Z.of_nat group_idx)) ;;
       host <- getitem hl group_idx ;;
       msgs <- setitem msgs group_idx (Msg.set_executedHost host) ;;
       Ok (Req.set_messages msgs req))
    (seq 0 k) (request msgs) =
  Ok (request (pin_all hl 0 (firstn k msgs) ++ skipn k msgs)).
Proof.
  induction k as [|k IH]; intros Hk Hm.
  - reflexivity.
  - rewrite seq_S, for_each_app, IH by lia. cbn [Py.bind Nat.add for_each].
    unfold request at 1. cbn [Req.messages].
    destruct (nth_error msgs k) as [m|] eqn:Em;
      [|apply nth_error_None in Em; lia].
    rewrite (skipn_nth_cons msgs k m Em).
    assert (Hlen : List.length (pin_all hl 0 (firstn k msgs)) = k)
      by (rewrite pin_all_length, length_firstn; lia).
    rewrite setitem_middle by exact Hlen. cbn [Py.bind].
    rewrite getitem_nth by lia. cbn [Py.bind].
    rewrite setitem_middle by exact Hlen. cbn [Py.bind].
    unfold Req.set_messages, request. cbn [Req.appId Req.user Req.function].
    do 2 f_equal. rewrite (firstn_snoc msgs k m Em), pin_all_app.
    rewrite length_firstn, Nat.min_l by lia. cbn [pin_all Nat.add].
    rewrite <- app_assoc. reflexivity.
Qed.

Lemma pin_hosts_any :
  (List.length msgs <= List.length hl)%nat ->
  pin_hosts hl (request msgs) = Ok (request (pin_all hl 0 msgs)).
Proof.
  intros H. unfold pin_hosts, range, request. cbn [Req.messages].
  rewrite to_nat_len. fold (request msgs).
  rewrite pin_rounds_any by lia.
  now rewrite firstn_all, skipn_all, app_nil_r.
Qed.

Lemma pin_hosts_any_short :
  (List.length hl < List.length msgs)%nat ->
  pin_hosts hl (request msgs) = Raise IndexError.
Proof.
  intros H. unfold pin_hosts, range, request. cbn [Req.messages].
  rewrite to_nat_len. fold (request msgs).
  assert (Hseq : seq 0 (List.length msgs) =
                 seq 0 (List.length hl)
                 ++ seq (List.length hl)
                        (Datatypes.S (List.length msgs - Datatypes.S (List.length hl)))).
  { rewrite <- seq_app. f_equal. lia. }
  rewrite Hseq, for_each_app, pin_rounds_any by lia.
  cbn [Py.bind Nat.add seq for_each]. unfold request. cbn [Req.messages].
  destruct (nth_error msgs (List.length hl)) as [m|] eqn:Em;
    [|apply nth_error_None in Em; lia].
  rewrite (skipn_nth_cons msgs _ m Em).
  rewrite setitem_middle by (rewrite pin_all_length, length_firstn; lia).
  cbn [Py.bind]. rewrite getitem_out_of_range by lia. reflexivity.
Qed.

End Any.

(** The padding loop on any request. *)
Lemma pad_messages_any (md : msg_dict) (N : Z) (req : Req.t) :
  pad_messages md N req =
  Req.set_messages
    (Req.messages req
     ++ repeat (Batch.message_factory md (Req.appId req))
               (Z.to_nat (N - len (Req.messages req))))
    req.
Proof.
  unfold pad_messages, range2. rewrite to_nat_len.
  set (a := List.length (Req.messages req)).
  set (m0 := Batch.message_factory md (Req.appId req)).
  assert (H : forall n,
             fold_left
               (fun r (_ : nat) => Req.append (Batch.message_factory md (Req.appId r)) r)
               (seq a n) req =
             Req.set_messages (Req.messages req ++ repeat m0 n) req).
  { intros n.
    pose proof (fold_left_invariant
                  (fun k r => r = Req.set_messages
                                    (Req.messages req ++ repeat m0 (k - a)) req)
                  (fun r (_ : nat) => Req.append (Batch.message_factory md (Req.appId r)) r)
                  a n req) as Hinv.
    cbn beta in Hinv. rewrite Hinv.
    - f_equal. f_equal. f_equal. lia.
    - rewrite Nat.sub_diag, app_nil_r. now destruct req.
    - intros i t Hi ->. unfold Req.append, Req.set_messages.
      cbn [Req.appId Req.user Req.function Req.messages]. fold m0.
      f_equal. rewrite <- app_assoc. f_equal.
      replace (Datatypes.S i - a)%nat with (Datatypes.S (i - a)) by lia.
      cbn [repeat]. now rewrite repeat_cons. }
  apply H.
Qed.

(** Every POST of the admission loop is a POST of the message to submit. *)
Lemma admission_loop_posts url json_msg num_retries secs idxs last script :
  Forall (fun e => is_post e = true -> e = EvPost url json_msg)
         (trace (admission_loop url json_msg num_retries secs idxs last script)).
Proof.
  revert last script. induction idxs as [|i idxs IH]; intros last script.
  - constructor.
  - destruct script as [|r script].
    + cbn. repeat constructor.
    + destruct (refused r) eqn:Hr.
      * rewrite admission_loop_refused by assumption. unfold emit. cbn [trace].
        cbn [app]. repeat (constructor; [cbn; auto; discriminate|]). apply IH.
      * rewrite admission_loop_answered by assumption. cbn. repeat constructor.
Qed.

Lemma invoke_without_wait_posts url json_msg script :
  Forall (fun e => is_post e = true -> e = EvPost url json_msg)
         (trace (invoke_without_wait url json_msg script)).
Proof.
  pose proof (invoke_without_wait_after_admission url json_msg script) as Sh.
  pose proof (admission_loop_posts url json_msg 100 (1 # 2)%Q (seq 0 100) None script) as Hp.
  destruct (admission_loop_bounded url json_msg 100 (1 # 2)%Q (seq 0 100)
              None script) as [Ho _]; [left; discriminate|].
  cbn zeta in Sh, Ho.
  destruct Ho as [Ho|[answer Ho]]; rewrite Ho in Sh; rewrite Sh; cbn [trace].
  - exact Hp.
  - apply Forall_app. split; [exact Hp|].
    destruct (negb (status_code answer =? 200)); repeat constructor. discriminate.
Qed.

(** [invoke_and_await] posts no preload. *)
Lemma invoke_and_await_no_preload url req n script :
  preloads (trace (invoke_and_await url (EXECUTE_BATCH req) n script)) = 0%nat.
Proof.
  assert (Hz : forall tr,
             Forall (fun e => is_preload e = false) tr -> preloads tr = 0%nat).
  { intros tr H. unfold preloads. induction H as [|e tr He _ IH]; [reflexivity|].
    cbn [filter]. now rewrite He. }
  apply Hz.
  pose proof (invoke_and_await_after_admission url (EXECUTE_BATCH req) n script) as Sh.
  pose proof (admission_loop_posts url (EXECUTE_BATCH req) 10 (1 # 2)%Q (seq 0 10)
                None script) as Hp.
  assert (Hp' : Forall (fun e => is_preload e = false)
                       (trace (admission_loop url (EXECUTE_BATCH req) 10 (1 # 2)%Q
                                              (seq 0 10) None script))).
  { eapply Forall_impl; [|exact Hp]. intros e He.
    destruct e as [u [r|s|r]| |]; try reflexivity.
    specialize (He eq_refl). discriminate. }
  destruct (admission_loop_bounded url (EXECUTE_BATCH req) 10 (1 # 2)%Q (seq 0 10)
              None script) as [Ho _]; [left; discriminate|].
  cbn zeta in Sh, Ho.
  destruct Ho as [Ho|[answer Ho]]; rewrite Ho in Sh; rewrite Sh.
  - exact Hp'.
  - unfold emit. cbn [trace]. rewrite <- app_assoc.
    apply Forall_app. split; [exact Hp'|]. apply Forall_app. split.
    + destruct (negb (status_code answer =? 200)); repeat constructor.
    + destruct (text answer) as [t|st0].
      * constructor.
      * rewrite trace_completion.
        eapply Forall_impl; [|apply poll_loop_posts]. intros e [_ He]. exact He.
Qed.

End PinningFacts.

(** ** The loops from the entry points *)

Module EntryFacts.
Import Invoke Protocol InvokeFacts PreloadFacts Polling PollingFacts AdmissionFacts.

Lemma trace_read_local {A : Type} (m : io (option A)) name script :
  trace (bind m (read_local name) script) = trace (m script).
Proof.
  unfold bind. destruct (out (m script)) as [[a|]| |]; cbn; try reflexivity;
    apply app_nil_r.
Qed.

Lemma read_local_returned {A : Type} (m : io (option A)) name script a tr u :
  m script = {| out := Returned (Some a); trace := tr; unread := u |} ->
  bind m (read_local name) script = {| out := Returned a; trace := tr; unread := u |}.
Proof.
  intros E. erewrite bind_returned by exact E.
  unfold emit, read_local, ret. cbn [out trace unread]. now rewrite app_nil_r.
Qed.

Lemma poll_loop_first_finished poll_period url json_msg ber_status pending r st rest :
  Forall (fun a => keeps_polling a = true) pending ->
  status_code r = 200 -> text r = StatusJson st -> Status.finished st = true ->
  poll_loop poll_period url json_msg ber_status (pending ++ r :: rest) =
  {| out := Returned (Some st);
     trace := flat_map (fun _ => poll_round poll_period url json_msg) (pending ++ [r]);
     unread := rest |}.
Proof.
  intros Hp Hc Ht Hf. rewrite poll_loop_keeps_all by assumption.
  rewrite (poll_loop_finished _ _ _ _ _ st) by assumption.
  unfold emit. cbn [out trace unread]. rewrite flat_map_app. reflexivity.
Qed.

Lemma poll_loop_left_waiting poll_period url json_msg ber_status script :
  Forall (fun a => keeps_polling a = true) script ->
  poll_loop poll_period url json_msg ber_status script =
  {| out := Waiting;
     trace := flat_map (fun _ => poll_round poll_period url json_msg) script
              ++ poll_round poll_period url json_msg;
     unread := [] |}.
Proof.
  intros Hp. rewrite <- (app_nil_r script) at 1.
  rewrite poll_loop_keeps_all by assumption. reflexivity.
Qed.

End EntryFacts.

(** ** What a call sends first *)

Module OrderFacts.
Import Invoke Protocol InvokeFacts.





End OrderFacts.

(** * The claims *)

Import Batch Built BuilderFacts Invoke Protocol InvokeFacts PreloadFacts SerializerFacts.
Import OrderFacts.

(** C1 (as amended). Through [invoke_wasm] without a host list: after a
    successful admission (fewer than 10 refusals, then a 200 answer), a
    status query answered [finished = false] and a second one answered
    [finished = true], the call has issued exactly two status polls, each
    after a sleep of one poll period (2 s), both carrying the
    client-computed [expectedNumMessages], and returns the status of the
    second response as the server sent it. *)
Theorem poll_twice_returns_second_status :
  forall gid url md n rd rd' dict_out (k : nat) st0 st1 st2 rest,
    resolve_req_dict rd md = Ok rd' ->
    (k < 10)%nat ->
    Status.finished st1 = false ->
    Status.finished st2 = true ->
    let submission := EXECUTE_BATCH (Batch.batch_exec_factory gid rd' md n) in
    let query :=
      EXECUTE_BATCH_STATUS
        (Status.set_expectedNumMessages (expected_num_messages md n) st0) in
    let r := invoke_wasm gid url md n rd dict_out None
               (repeat no_available_hosts k
                ++ ok200 st0 :: ok200 st1 :: ok200 st2 :: rest) in
    r = {| out := Returned (wrap dict_out st2);
           trace := admission_trace url submission 10 k
                    ++ [EvSleep (2 # 1)%Q; EvPost url query;
                        EvSleep (2 # 1)%Q; EvPost url query];
           unread := rest |}
    /\ polls (trace r) = 2%nat.
Proof.
  intros gid url md n rd rd' dict_out k st0 st1 st2 rest Hrd Hk H1 H2
         submission query r.
  assert (E : r = {| out := Returned (wrap dict_out st2);
                     trace := admission_trace url submission 10 k
                              ++ [EvSleep (2 # 1)%Q; EvPost url query;
                                  EvSleep (2 # 1)%Q; EvPost url query];
                     unread := rest |}).
  { subst r. rewrite (invoke_wasm_plain _ _ _ _ _ rd' _ _ Hrd).
    erewrite bind_returned.
    2:{ rewrite invoke_and_await_accepted by exact Hk.
        unfold completion. erewrite bind_returned.
        2:{ rewrite (poll_loop_unfinished _ _ _ _ _ st1) by (reflexivity || assumption).
            rewrite (poll_loop_finished _ _ _ _ _ st2) by (reflexivity || assumption).
            reflexivity. }
        reflexivity. }
    unfold emit, ret. cbn [out trace unread]. now rewrite app_nil_r. }
  split; [exact E|]. rewrite E. cbn [trace]. unfold submission.
  rewrite polls_app, polls_admission_trace. reflexivity.
Qed.

(** The scenario of the description: three messages for alice/work. *)
Lemma poll_twice_returns_second_status_witness :
  let query :=
    EXECUTE_BATCH_STATUS
      (Status.set_expectedNumMessages (expected_num_messages alice_work 3) st_accepted) in
  let r := invoke_wasm 42 planner_url alice_work 3 None false None
                       (ok200 st_accepted :: ok200 st_running :: ok200 st_done :: []) in
  r = {| out := Returned (wrap false st_done);
         trace := [EvPost planner_url
                     (EXECUTE_BATCH (Batch.batch_exec_factory 42 alice_req alice_work 3));
                   EvSleep (2 # 1)%Q; EvPost planner_url query;
                   EvSleep (2 # 1)%Q; EvPost planner_url query];
         unread := [] |}
  /\ polls (trace r) = 2%nat.
Proof.
  apply (poll_twice_returns_second_status 42 planner_url alice_work 3 None alice_req
           false 0 st_accepted st_running st_done []); solve [reflexivity | lia].
Defined.

(** C1 as stated fails: the client computed 3 expected messages, the second
    response carries 7, and the returned status says 7. *)
Lemma poll_twice_returns_server_expected_count :
  out (invoke_wasm 42 planner_url alice_work 3 None false None
                   [ok200 st_accepted; ok200 st_running; ok200 st_done])
  = Returned (AsMessage st_done)
  /\ expected_num_messages alice_work 3 = 3
  /\ Status.expectedNumMessages st_done = 7
  /\ Status.expectedNumMessages st_done <> expected_num_messages alice_work 3.
Proof. repeat split. cbn. lia. Qed.

(** C2 fails on text that is not ASCII: what [serialize_map] writes for the
    map of U+00E9 to the empty string does not decode (the decoder takes one
    byte for the key, as the length field says, and that byte alone is not
    UTF-8), while the layout as worded decodes back to the map. The length
    formula holds. *)
Theorem serialize_map_roundtrip_fails_on_multibyte_text :
  Layout.roundtrip Struct.little Layout.e_acute_map = Ok None /\
  (buf <- Layout.encode Layout.e_acute_map ;; Ok (MapDecode.decode buf))
    = Ok (Some Layout.e_acute_map) /\
  (buf <- Batch.serialize_map Struct.little Layout.e_acute_map ;; Ok (len buf))
    = Ok (4 + Layout.payload_size Layout.e_acute_map).
Proof. repeat split. Qed.

(** C3 fails on text that is not ASCII: for the map of U+00E9 to the empty
    string, on a little-endian machine, [serialize_map] writes 1 in the key
    length field, the number of characters, before the 2 bytes of the key;
    the layout as worded has 2 there. *)
Theorem serialize_map_length_field_counts_characters :
  Batch.serialize_map Struct.little Layout.e_acute_map
    = Ok [1; 0; 0; 0;  1; 0; 0; 0;  195; 169;  0; 0; 0; 0] /\
  Layout.encode Layout.e_acute_map
    = Ok [1; 0; 0; 0;  2; 0; 0; 0;  195; 169;  0; 0; 0; 0] /\
  len (A := Z) [233] = 1 /\ Utf8.byteLen [233] = 2.
Proof. repeat split. Qed.

(** C4 fails when the chain-linkage identifiers are omitted: the loop reads
    [chained_id_list[i]] without the guard that the inputs have, so building
    one message raises [TypeError]; so does the fire-and-forget entry point,
    which never supplies them, before any POST. *)
Theorem bound_request_without_chained_ids_raises :
  forall native rd app_id md url script,
    Batch.batch_exec_input_factory native rd app_id md 1 None None = Raise TypeError /\
    Batch.batch_exec_input_factory native rd app_id md 1 (Some [[]]) None
      = Raise TypeError /\
    invoke_wasm_without_wait native url app_id md 1 (Some rd) None script =
    {| out := Raised TypeError; trace := []; unread := script |}.
Proof.
  intros native rd app_id md url script. repeat split.
Qed.

(** C5. Admission: after [k] answers "500 / No available hosts", [k] below
    the bound, and then a success, the client has issued exactly [k + 1]
    submission POSTs, slept the backoff (0.5 s) after each refusal, and the
    submission proceeds (to polling for the waiting entry point, to the
    return for the fire-and-forget one). The bound is 10 attempts for
    [invoke_and_await] and 100 for [invoke_without_wait]: with that many
    refusals the loop stops submitting. *)
Theorem admission_retries_then_success :
  (forall url req n (k : nat) st0 rest,
      (k < 10)%nat ->
      let msg := EXECUTE_BATCH req in
      let r := invoke_and_await url msg n
                 (repeat no_available_hosts k ++ ok200 st0 :: rest) in
      r = emit (admission_trace url msg 10 k)
               (completion url (Status.set_expectedNumMessages n st0) rest)
      /\ submissions (trace r) = Datatypes.S k) /\
  (forall url req (k : nat) answer rest,
      (k < 100)%nat -> status_code answer = 200 ->
      let msg := EXECUTE_BATCH req in
      let r := invoke_without_wait url msg
                 (repeat no_available_hosts k ++ answer :: rest) in
      r = {| out := Returned tt; trace := admission_trace url msg 100 k;
             unread := rest |}
      /\ submissions (trace r) = Datatypes.S k) /\
  (forall url req n rest,
      let r := invoke_and_await url (EXECUTE_BATCH req) n
                 (repeat no_available_hosts 10 ++ rest) in
      submissions (trace r) = 10%nat /\ unread r = rest) /\
  (forall url req rest,
      let r := invoke_without_wait url (EXECUTE_BATCH req)
                 (repeat no_available_hosts 100 ++ rest) in
      submissions (trace r) = 100%nat /\ unread r = rest).
Proof.
  split; [|split; [|split]].
  - intros url req n k st0 rest Hk msg r.
    assert (E : r = emit (admission_trace url msg 10 k)
                         (completion url (Status.set_expectedNumMessages n st0) rest))
      by (apply invoke_and_await_accepted; assumption).
    split; [exact E|]. rewrite E. unfold emit. cbn [trace]. unfold msg.
    rewrite submissions_app, submissions_admission_trace, submissions_completion.
    lia.
  - intros url req k answer rest Hk Ha msg r.
    assert (E : r = {| out := Returned tt; trace := admission_trace url msg 100 k;
                       unread := rest |})
      by (apply invoke_without_wait_accepted; assumption).
    split; [exact E|]. rewrite E. cbn [trace]. apply submissions_admission_trace.
  - intros url req n rest r. subst r. rewrite invoke_and_await_exhausted.
    cbn [trace unread]. split; [|reflexivity].
    rewrite submissions_app, submissions_retry_rounds. reflexivity.
  - intros url req rest r. subst r. rewrite invoke_without_wait_exhausted.
    cbn [trace unread]. split; [|reflexivity].
    rewrite submissions_app, submissions_retry_rounds. reflexivity.
Qed.

(** Two refusals, then the admission. *)
Lemma admission_retries_then_success_witness :
  (let msg := EXECUTE_BATCH (Batch.batch_exec_factory 42 alice_req alice_work 3) in
   let r := invoke_and_await planner_url msg 3
              (repeat no_available_hosts 2 ++ ok200 st_accepted :: [ok200 st_done]) in
   r = emit (admission_trace planner_url msg 10 2)
            (completion planner_url (Status.set_expectedNumMessages 3 st_accepted)
                        [ok200 st_done])
   /\ submissions (trace r) = 3%nat) /\
  (let msg := EXECUTE_BATCH (Batch.batch_exec_factory 42 alice_req alice_work 3) in
   let r := invoke_without_wait planner_url msg
              (repeat no_available_hosts 2 ++ ok200 st_accepted :: []) in
   r = {| out := Returned tt; trace := admission_trace planner_url msg 100 2;
          unread := [] |}
   /\ submissions (trace r) = 3%nat).
Proof.
  split.
  - apply (proj1 admission_retries_then_success). lia.
  - apply (proj1 (proj2 admission_retries_then_success)); [lia | reflexivity].
Defined.




(** C7 fails in [query_result]: a non-200 answer that is not the
    not-registered one, when it answers the first poll, ends the loop with
    [ber_status] never assigned, and [return ber_status] raises. *)
Theorem query_result_raises_on_first_transport_error :
  forall app_id url rest,
    query_result app_id url (server_error :: rest) =
    {| out := Raised (UnboundLocalError "ber_status");
       trace := [EvSleep (1 # 2)%Q;
                 EvPost url (EXECUTE_BATCH_STATUS (status_of_app_id app_id));
                 EvPrint (PostRequestFailed 500 (Plain "Internal Server Error"))];
       unread := rest |}.
Proof. reflexivity. Qed.

(** C8. A non-200 answer with body "App not registered in results" does not
    end the polling loop and raises nothing: the loop sleeps, polls and goes
    on with the responses to come, its status unchanged, as it goes on after
    a 200 answer with [finished = false]; so do both entry points. *)
Theorem not_registered_keeps_polling :
  forall poll_period url json_msg ber_status code rest,
    code <> 200 ->
    poll_loop poll_period url json_msg ber_status (not_registered code :: rest) =
    emit [EvSleep poll_period; EvPost url json_msg]
         (poll_loop poll_period url json_msg ber_status rest) /\
    (forall st,
        Status.finished st = false ->
        poll_loop poll_period url json_msg ber_status (ok200 st :: rest) =
        emit [EvSleep poll_period; EvPost url json_msg]
             (poll_loop poll_period url json_msg (Some st) rest)) /\
    (forall app_id,
        query_result app_id url (not_registered code :: rest) =
        emit [EvSleep (1 # 2)%Q;
              EvPost url (EXECUTE_BATCH_STATUS (status_of_app_id app_id))]
             (query_result app_id url rest)) /\
    (forall msg n st0,
        let sent := Status.set_expectedNumMessages n st0 in
        invoke_and_await url msg n (ok200 st0 :: not_registered code :: rest) =
        emit [EvPost url msg; EvSleep (2 # 1)%Q;
              EvPost url (EXECUTE_BATCH_STATUS sent)]
             (completion url sent rest) /\
        invoke_and_await url msg n (ok200 st0 :: rest) =
        emit [EvPost url msg] (completion url sent rest)).
Proof.
  intros poll_period url json_msg ber_status code rest Hc.
  split; [|split; [|split]].
  - now apply poll_loop_not_registered.
  - intros st Hf. now apply (poll_loop_unfinished _ _ _ _ _ st).
  - intros app_id. rewrite !query_result_unfold.
    rewrite <- bind_emit. unfold bind at 1.
    rewrite poll_loop_not_registered by (assumption || reflexivity).
    reflexivity.
  - intros msg n st0 sent. split.
    + rewrite invoke_and_await_accepted_at_once. fold sent.
      unfold completion. unfold bind at 1.
      rewrite poll_loop_not_registered by (assumption || reflexivity).
      fold (bind (fun s => emit [EvSleep (2 # 1)%Q; EvPost url (EXECUTE_BATCH_STATUS sent)]
                             (poll_loop (2 # 1)%Q url (EXECUTE_BATCH_STATUS sent) (Some sent) s))
                 (read_local "ber_status") rest).
      rewrite bind_emit, emit_emit. reflexivity.
    + apply invoke_and_await_accepted_at_once.
Qed.

(** A first poll answered not-registered, a second one finished. *)
Lemma not_registered_keeps_polling_witness :
  query_result 42 planner_url [not_registered 500; ok200 st_done] =
  emit [EvSleep (1 # 2)%Q;
        EvPost planner_url (EXECUTE_BATCH_STATUS (status_of_app_id 42))]
       (query_result 42 planner_url [ok200 st_done]).
Proof.
  apply (not_registered_keeps_polling (1 # 2)%Q planner_url
           (EXECUTE_BATCH_STATUS (status_of_app_id 42)) None 500 [ok200 st_done]).
  lia.
Defined.

(** C9. A non-200 answer to the preload is fatal: [invoke_wasm] raises
    [RuntimeError] at once; the preload was posted once, the submission
    never, and no later response is read. *)
Theorem rejected_preload_aborts :
  forall gid url md n rd rd' dict_out hl r rest,
    resolve_req_dict rd md = Ok rd' ->
    len hl = expected_num_messages md n ->
    n <= expected_num_messages md n ->
    status_code r <> 200 ->
    let run := invoke_wasm gid url md n rd dict_out (Some hl) (r :: rest) in
    out run = Raised (RuntimeError "Error preloading scheduling decision!") /\
    trace run =
      [EvPost url (PRELOAD_SCHEDULING_DECISION (preloaded_request gid rd' md hl));
       EvPrint (ErrorPreloading (status_code r) (text r))] /\
    preloads (trace run) = 1%nat /\
    submissions (trace run) = 0%nat /\
    unread run = rest.
Proof.
  intros gid url md n rd rd' dict_out hl r rest Hrd HN Hn Hr run. subst run.
  rewrite (invoke_wasm_preload_rejected _ _ _ _ _ rd' _ _ Hrd _ _ HN Hn Hr).
  repeat split.
Qed.

(** The preload of the pinned job answered by a server error. *)
Lemma rejected_preload_aborts_witness :
  let run := invoke_wasm 42 planner_url mpi_job 1 None false (Some three_hosts)
                         (server_error :: [ok200 st_accepted]) in
  out run = Raised (RuntimeError "Error preloading scheduling decision!") /\
  trace run =
    [EvPost planner_url
       (PRELOAD_SCHEDULING_DECISION (preloaded_request 42 alice_req mpi_job three_hosts));
     EvPrint (ErrorPreloading (status_code server_error) (text server_error))] /\
  preloads (trace run) = 1%nat /\
  submissions (trace run) = 0%nat /\
  unread run = [ok200 st_accepted].
Proof.
  apply (rejected_preload_aborts 42 planner_url mpi_job 1 None alice_req false
           three_hosts server_error [ok200 st_accepted]).
  - reflexivity.
  - reflexivity.
  - cbn. lia.
  - cbn. lia.
Defined.

(** C10. Every request a builder produces carries its [appId] on all its
    messages and has as many messages as requested: [batch_exec_factory]
    with the drawn identifier, [batch_exec_input_factory] (whenever it
    returns a request) with the identifier it was given. The requested
    count is a count: [0 <= num_messages]. *)
Theorem built_requests_share_appId_and_count :
  (forall (gid : Z) (rd : req_dict) (md : msg_dict) (num_messages : Z),
      0 <= num_messages ->
      let req := batch_exec_factory gid rd md num_messages in
      Req.appId req = gid /\ share_appId req /\
      len (Req.messages req) = num_messages) /\
  (forall native (rd : req_dict) (app_id : Z) (md : msg_dict) (num_messages : Z)
          input_list chained_id_list (req : Req.t),
      0 <= num_messages ->
      batch_exec_input_factory native rd app_id md num_messages
                               input_list chained_id_list = Ok req ->
      Req.appId req = app_id /\ share_appId req /\
      len (Req.messages req) = num_messages).
Proof.
  split.
  - intros gid rd md n Hn req. subst req. rewrite batch_exec_factory_closed.
    unfold share_appId, len. cbn. repeat split.
    + apply Forall_forall. intros m Hm. apply repeat_spec in Hm. now subst m.
    + rewrite repeat_length. lia.
  - intros native rd app_id md n il cl req Hn E.
    apply batch_exec_input_factory_built in E.
    destruct E as (Hid & _ & _ & Hlen & Hmsgs). unfold share_appId, len.
    repeat split; [exact Hid | | lia].
    apply Forall_forall. intros m Hm. apply In_nth_error in Hm.
    destruct Hm as [i Hi]. rewrite Hid.
    eapply bound_message_appId. eapply Hmsgs. exact Hi.
Qed.

(** Three fresh messages; two bound messages with inputs and chain ids. *)
Lemma built_requests_share_appId_and_count_witness :
  (let req := batch_exec_factory 42 alice_req alice_work 3 in
   Req.appId req = 42 /\ share_appId req /\ len (Req.messages req) = 3) /\
  (let req :=
     Req.mk 7 "alice" "work"
       [Msg.mk 7 "alice" "work" 0 0 EmptyString [1; 0; 0; 0; 1; 0; 0; 0; 107; 1; 0; 0; 0; 118] 5;
        Msg.mk 7 "alice" "work" 0 0 EmptyString [0; 0; 0; 0] 6] in
   Req.appId req = 7 /\ share_appId req /\ len (Req.messages req) = 2).
Proof.
  split.
  - apply (proj1 built_requests_share_appId_and_count). lia.
  - apply (proj2 built_requests_share_appId_and_count Struct.little alice_req 7
             alice_work 2 (Some [[([107], [118])]; []]) (Some [5; 6])).
    + lia.
    + reflexivity.
Defined.

(** * Further properties of the code *)

Import Struct Layout Utf8Facts SerializerMore CharReader BuilderMore.
Import Polling PollingFacts AdmissionFacts Pinning PinningFacts EntryFacts.


(** ** [serialize_string] and [serialize_map] *)

(** X1. The buffer [serialize_map] returns is the packed number of items
    followed, item by item in iteration order, by the packed [len(key)],
    the UTF-8 bytes of the key, the packed [len(value)] and the UTF-8 bytes
    of the value, with nothing in between and nothing after. *)
Theorem serialize_map_layout :
  forall native (m : map_data) (buf : list Z),
    serialize_map native m = Ok buf ->
    exists count chunks,
      pack_I native (len m) = Ok count /\
      Forall2
        (fun kv chunk =>
           exists nk bk nv bv,
             pack_I native (len (fst kv)) = Ok nk /\
             Utf8.encode (fst kv) = Ok bk /\
             pack_I native (len (snd kv)) = Ok nv /\
             Utf8.encode (snd kv) = Ok bv /\
             chunk = nk ++ bk ++ nv ++ bv)
        m chunks /\
      buf = count ++ List.concat chunks.
Proof.
  intros native m buf. rewrite serialize_map_written.
  destruct (pack_I native (len m)) as [count|e] eqn:Ec; [|discriminate]. cbn [Py.bind].
  destruct (written_entries native m) as [r|e] eqn:Er; [|discriminate]. cbn [Py.bind].
  intros E. exists count.
  assert (H : exists chunks,
             Forall2
               (fun kv chunk =>
                  exists nk bk nv bv,
                    pack_I native (len (fst kv)) = Ok nk /\
                    Utf8.encode (fst kv) = Ok bk /\
                    pack_I native (len (snd kv)) = Ok nv /\
                    Utf8.encode (snd kv) = Ok bv /\
                    chunk = nk ++ bk ++ nv ++ bv)
               m chunks /\ r = List.concat chunks).
  { clear E Ec. revert r Er.
    induction m as [|[k v] m IH]; intros r; cbn [written_entries].
    - intros E. exists []. split; [apply Forall2_nil | cbn [List.concat]; congruence].
    - unfold written_string at 1 2.
      destruct (pack_I native (len k)) as [nk|] eqn:Enk; [|discriminate]. cbn [Py.bind].
      destruct (Utf8.encode k) as [bk|] eqn:Ebk; [|discriminate]. cbn [Py.bind].
      destruct (pack_I native (len v)) as [nv|] eqn:Env; [|discriminate]. cbn [Py.bind].
      destruct (Utf8.encode v) as [bv|] eqn:Ebv; [|discriminate]. cbn [Py.bind].
      destruct (written_entries native m) as [r'|] eqn:Er'; [|discriminate].
      cbn [Py.bind]. intros E.
      destruct (IH r' eq_refl) as (chunks & Hch & ->).
      exists ((nk ++ bk ++ nv ++ bv) :: chunks). split.
      + constructor; [|exact Hch]. cbn [fst snd].
        exists nk, bk, nv, bv. repeat split; assumption.
      + cbn [List.concat]. rewrite <- !app_assoc. rewrite <- !app_assoc in E. congruence. }
  destruct H as (chunks & Hch & ->). exists chunks. repeat split; [exact Hch | congruence].
Qed.

Lemma serialize_map_layout_witness :
  exists count chunks,
    pack_I little (len kv_map) = Ok count /\
    Forall2
      (fun kv chunk =>
         exists nk bk nv bv,
           pack_I little (len (fst kv)) = Ok nk /\
           Utf8.encode (fst kv) = Ok bk /\
           pack_I little (len (snd kv)) = Ok nv /\
           Utf8.encode (snd kv) = Ok bv /\
           chunk = nk ++ bk ++ nv ++ bv)
      kv_map chunks /\
    kv_buffer = count ++ List.concat chunks.
Proof. apply (serialize_map_layout little kv_map kv_buffer). reflexivity. Defined.

(** X2. Whenever [serialize_map] returns, the buffer has 4 bytes for the
    count and, per item, 4 bytes and the UTF-8 bytes of the key and 4 bytes
    and the UTF-8 bytes of the value: the lengths of the fields count
    characters, the size of the buffer counts bytes. *)
Theorem serialize_map_buffer_size :
  forall native (m : map_data) (buf : list Z),
    serialize_map native m = Ok buf ->
    len buf = 4 + payload_size m.
Proof. intros native m buf. apply serialize_map_size. Qed.

Lemma serialize_map_buffer_size_witness :
  len kv_buffer = 4 + payload_size kv_map.
Proof. apply (serialize_map_buffer_size little kv_map kv_buffer). reflexivity. Defined.

(** X3. [serialize_map] returns a buffer exactly for the maps of fewer than
    2^32 items whose keys and values have fewer than 2^32 characters, none
    of them a surrogate; on every other map it raises, and what it raises
    is [struct.error] or [UnicodeEncodeError], nothing else. *)
Theorem serialize_map_returns_iff :
  forall native (m : map_data),
    ((exists buf, serialize_map native m = Ok buf) <-> packable_map m) /\
    (forall e, serialize_map native m = Raise e ->
               e = StructError \/ e = UnicodeEncodeError).
Proof.
  intros native m. split.
  - apply serialize_map_returns_packable.
  - apply serialize_map_raises.
Qed.

Lemma serialize_map_returns_iff_witness : packable_map kv_map.
Proof.
  apply (proj1 (proj1 (serialize_map_returns_iff little kv_map))).
  exists kv_buffer. reflexivity.
Defined.

(** X4. [serialize_map] is injective, on a machine of either byte order:
    two maps (as sequences of items) with the same buffer are the same
    map. Counting characters in the length fields leaves the format
    unambiguous, multi-byte text included. *)
Theorem serialize_map_injective :
  forall native (m1 m2 : map_data) (buf : list Z),
    serialize_map native m1 = Ok buf ->
    serialize_map native m2 = Ok buf ->
    m1 = m2.
Proof.
  intros native m1 m2 buf. rewrite !serialize_map_written.
  destruct (pack_I native (len m1)) as [n1|] eqn:En1; [|discriminate]. cbn [Py.bind].
  destruct (written_entries native m1) as [e1|] eqn:Ee1; [|discriminate]. cbn [Py.bind].
  destruct (pack_I native (len m2)) as [n2|] eqn:En2; [|discriminate]. cbn [Py.bind].
  destruct (written_entries native m2) as [e2|] eqn:Ee2; [|discriminate]. cbn [Py.bind].
  intros E1 E2.
  assert (H : n1 ++ e1 = n2 ++ e2) by congruence.
  destruct (pack_I_injective _ _ _ _ _ _ _ En1 En2 H) as [Hlen He].
  assert (Hn : List.length m1 = List.length m2) by (unfold len in Hlen; lia).
  assert (He' : e1 ++ [] = e2 ++ []) by (now rewrite !app_nil_r).
  now destruct (written_entries_injective _ _ _ _ _ _ _ Hn Ee1 Ee2 He').
Qed.

Lemma serialize_map_injective_witness :
  [([233], []); ([107], [118])] = [([233], []); ([107], [118])].
Proof.
  apply (serialize_map_injective big _ _
           [0; 0; 0; 2;  0; 0; 0; 1;  195; 169;  0; 0; 0; 0;
            0; 0; 0; 1;  107;  0; 0; 0; 1;  118]); reflexivity.
Defined.

(** ** [batch_exec_factory] and [batch_exec_input_factory] *)

(** X5. [batch_exec_factory] returns the request parsed from the template
    with the drawn identifier as [appId] and [num_messages] messages, each
    the message [message_factory] makes of the message template for that
    identifier; a count of zero or less gives a request without messages. *)
Theorem batch_exec_factory_request :
  forall gid rd md num_messages,
    batch_exec_factory gid rd md num_messages =
    Req.mk gid (rd_user rd) (rd_function rd)
           (repeat (message_factory md gid) (Z.to_nat num_messages))
    /\ (num_messages <= 0 ->
        Req.messages (batch_exec_factory gid rd md num_messages) = []).
Proof.
  intros gid rd md n. rewrite batch_exec_factory_closed. split; [reflexivity|].
  intros Hn. cbn [Req.messages]. replace (Z.to_nat n) with 0%nat by lia. reflexivity.
Qed.

Lemma batch_exec_factory_request_witness :
  Req.messages (batch_exec_factory 42 alice_req alice_work (-1)) = [].
Proof.
  apply (proj2 (batch_exec_factory_request 42 alice_req alice_work (-1))). lia.
Defined.

(** X6. A request [batch_exec_input_factory] returns is bound to the given
    [app_id], has the template's header and one message per index of
    [range(num_messages)]; message [i] is the template message with
    [chainedId = chained_id_list[i]] and, when inputs are supplied, with
    [inputData] the buffer [serialize_map] returns for [input_list[i]]. *)
Theorem batch_exec_input_factory_messages :
  forall native rd app_id md num_messages input_list chained_id_list req,
    batch_exec_input_factory native rd app_id md num_messages
                             input_list chained_id_list = Ok req ->
    Req.appId req = app_id /\
    Req.user req = rd_user rd /\ Req.function req = rd_function rd /\
    List.length (Req.messages req) = Z.to_nat num_messages /\
    forall i m,
      nth_error (Req.messages req) i = Some m ->
      exists chained_id,
        (exists l, chained_id_list = Some l /\ nth_error l i = Some chained_id) /\
        match input_list with
        | Some inputs =>
            exists input data,
              nth_error inputs i = Some input /\
              serialize_map native input = Ok data /\
              m = Msg.set_chainedId chained_id
                    (Msg.set_inputData data (message_factory md app_id))
        | None => m = Msg.set_chainedId chained_id (message_factory md app_id)
        end.
Proof.
  intros native rd app_id md n il cl req E.
  exact (batch_exec_input_factory_built native rd app_id md n il cl req E).
Qed.

Lemma batch_exec_input_factory_messages_witness :
  let req :=
    Req.mk 7 "alice" "work"
      [Msg.mk 7 "alice" "work" 0 0 EmptyString
              [1; 0; 0; 0; 1; 0; 0; 0; 107; 1; 0; 0; 0; 118] 5;
       Msg.mk 7 "alice" "work" 0 0 EmptyString [0; 0; 0; 0] 6] in
  Req.appId req = 7 /\
  Req.user req = rd_user alice_req /\ Req.function req = rd_function alice_req /\
  List.length (Req.messages req) = Z.to_nat 2 /\
  forall i m,
    nth_error (Req.messages req) i = Some m ->
    exists chained_id,
      (exists l, Some [5; 6] = Some l /\ nth_error l i = Some chained_id) /\
      exists input data,
        nth_error [[([107], [118])]; []] i = Some input /\
        serialize_map little input = Ok data /\
        m = Msg.set_chainedId chained_id
              (Msg.set_inputData data (message_factory alice_work 7)).
Proof.
  apply (batch_exec_input_factory_messages little alice_req 7 alice_work 2
           (Some [[([107], [118])]; []]) (Some [5; 6])).
  reflexivity.
Defined.

(** X7. [batch_exec_input_factory] returns a request exactly when: the
    inputs, if supplied, are [num_messages] many; the chain-linkage
    identifiers, if supplied, are [num_messages] many; they are supplied
    whenever at least one message is requested; and every supplied input is
    a map [serialize_map] accepts. In every other case it raises. *)
Theorem batch_exec_input_factory_returns_iff :
  forall native rd app_id md num_messages input_list chained_id_list,
    (exists req,
        batch_exec_input_factory native rd app_id md num_messages
                                 input_list chained_id_list = Ok req)
    <->
    arity_ok input_list num_messages /\
    arity_ok chained_id_list num_messages /\
    (0 < num_messages -> chained_id_list <> None) /\
    (forall inputs, input_list = Some inputs -> Forall packable_map inputs).
Proof.
  intros native rd app_id md n il cl. split.
  - intros [req E].
    destruct (batch_exec_input_factory_checked _ _ _ _ _ _ _ req E) as [Hi Hc].
    destruct (batch_exec_input_factory_returned _ _ _ _ _ _ _ req E) as [Hsome Hser].
    repeat split; try assumption.
    intros inputs Hin. eapply Forall_impl; [|exact (Hser inputs Hin)].
    intros input. apply serialize_map_returns_packable.
  - intros (Hi & Hc & Hsome & Hser).
    apply batch_exec_input_factory_returns_when; try assumption.
    intros inputs Hin. eapply Forall_impl; [|exact (Hser inputs Hin)].
    intros input. apply serialize_map_returns_packable.
Qed.

Lemma batch_exec_input_factory_returns_iff_witness :
  arity_ok (Some [kv_map; []]) 2 /\
  arity_ok (Some [5; 6]) 2 /\
  (0 < 2 -> Some [5; 6] <> None) /\
  (forall inputs, Some [kv_map; []] = Some inputs -> Forall packable_map inputs).
Proof.
  apply (proj1 (batch_exec_input_factory_returns_iff little alice_req 7 alice_work 2
                  (Some [kv_map; []]) (Some [5; 6]))).
  eexists. reflexivity.
Defined.

(** X8. The arity checks: inputs supplied in another number than
    [num_messages] raise [AssertionError] with the message about the input
    data, whatever the chain-linkage identifiers are; with the inputs in
    order, chain-linkage identifiers supplied in another number raise
    [AssertionError] with the message about the chainedIds. *)
Theorem batch_exec_input_factory_arity_errors :
  forall native rd app_id md num_messages input_list chained_id_list,
    (forall inputs,
        input_list = Some inputs -> len inputs <> num_messages ->
        batch_exec_input_factory native rd app_id md num_messages
                                 input_list chained_id_list =
        Raise (AssertionError "Number of input data should match number of messages"))
    /\
    (forall cids,
        arity_ok input_list num_messages ->
        chained_id_list = Some cids -> len cids <> num_messages ->
        batch_exec_input_factory native rd app_id md num_messages
                                 input_list chained_id_list =
        Raise (AssertionError "Number of chainedIds should match number of messages")).
Proof.
  intros native rd app_id md n il cl. split.
  - intros inputs Hin Hlen. now apply (batch_exec_input_factory_arity _ _ _ _ _ _ _ inputs).
  - intros cids Hi Hc Hlen.
    now apply (batch_exec_input_factory_arity_chained _ _ _ _ _ _ _ cids).
Qed.

Lemma batch_exec_input_factory_arity_errors_witness :
  batch_exec_input_factory little alice_req 7 alice_work 2 (Some [[]]) (Some [5]) =
  Raise (AssertionError "Number of input data should match number of messages")
  /\
  batch_exec_input_factory little alice_req 7 alice_work 2 None (Some [5]) =
  Raise (AssertionError "Number of chainedIds should match number of messages").
Proof.
  split.
  - apply (proj1 (batch_exec_input_factory_arity_errors little alice_req 7 alice_work 2
                    (Some [[]]) (Some [5])) [[]]); [reflexivity | cbn; lia].
  - apply (proj2 (batch_exec_input_factory_arity_errors little alice_req 7 alice_work 2
                    None (Some [5])) [5]); [exact I | reflexivity | cbn; lia].
Defined.

(** ** [invoke_and_await] and [invoke_without_wait]: admission *)

(** X9. Whatever the endpoint answers, [invoke_and_await] posts the
    submission at most 10 times, and [invoke_without_wait] posts at most 100
    times and never raises: it returns (or is left waiting for an answer). *)
Theorem admission_is_bounded :
  (forall url req n script,
      (submissions (trace (invoke_and_await url (EXECUTE_BATCH req) n script)) <= 10)%nat)
  /\
  (forall url json_msg script,
      let r := invoke_without_wait url json_msg script in
      (posts (trace r) <= 100)%nat /\ (out r = Returned tt \/ out r = Waiting)).
Proof.
  split.
  - intros url req n script. apply invoke_and_await_submissions_bound.
  - intros url json_msg script. apply invoke_without_wait_bound.
Qed.

(** X10. When every attempt is refused ("No available hosts"),
    [invoke_and_await] gives up after the tenth, logs the failed POST and
    raises [ParseError] (it parses the refusal as a status) without a single
    status poll; [invoke_without_wait] gives up after the hundredth, logs
    the failed POST and returns as it does after a success. *)
Theorem admission_exhausted :
  (forall url req n rest,
      let r := invoke_and_await url (EXECUTE_BATCH req) n
                 (repeat no_available_hosts 10 ++ rest) in
      out r = Raised ParseError /\
      trace r = flat_map (retry_round url (EXECUTE_BATCH req) 10) (seq 0 10)
                ++ [EvPrint (PostRequestFailed 500 (Plain "No available hosts"))] /\
      polls (trace r) = 0%nat /\ unread r = rest) /\
  (forall url json_msg rest,
      let r := invoke_without_wait url json_msg
                 (repeat no_available_hosts 100 ++ rest) in
      out r = Returned tt /\
      trace r = flat_map (retry_round url json_msg 100) (seq 0 100)
                ++ [EvPrint (PostRequestFailed 500 (Plain "No available hosts"))] /\
      unread r = rest).
Proof.
  split.
  - intros url req n rest r. subst r. rewrite invoke_and_await_exhausted.
    cbn [out trace unread]. repeat split.
  - intros url json_msg rest r. subst r. rewrite invoke_without_wait_exhausted.
    repeat split.
Qed.

(** X11. A first answer that is not the refusal is never retried:
    [invoke_and_await] has posted once, logs the POST as failed unless the
    code is 200, and then lets the body decide, not the code: a body that
    parses as a status starts the polling, any other body raises
    [ParseError]. *)
Theorem admission_answer_not_retried :
  forall url json_msg n answer rest,
    refused answer = false ->
    invoke_and_await url json_msg n (answer :: rest) =
    emit (EvPost url json_msg
          :: if negb (status_code answer =? 200)
             then [EvPrint (PostRequestFailed (status_code answer) (text answer))]
             else [])
         (match text answer with
          | StatusJson st0 =>
              completion url (Status.set_expectedNumMessages n st0) rest
          | Plain _ => raise ParseError rest
          end).
Proof.
  intros url json_msg n answer rest Hr.
  pose proof (invoke_and_await_after_admission url json_msg n (answer :: rest)) as Sh.
  cbn zeta in Sh. change (seq 0 10) with (0%nat :: seq 1 9) in Sh.
  rewrite admission_loop_answered in Sh by assumption.
  cbn [out trace unread] in Sh. exact Sh.
Qed.

Lemma admission_answer_not_retried_witness :
  invoke_and_await planner_url (EXECUTE_BATCH (Batch.batch_exec_factory 42 alice_req alice_work 3))
                   3 (server_error :: [ok200 st_done]) =
  {| out := Raised ParseError;
     trace := [EvPost planner_url
                 (EXECUTE_BATCH (Batch.batch_exec_factory 42 alice_req alice_work 3));
               EvPrint (PostRequestFailed 500 (Plain "Internal Server Error"))];
     unread := [ok200 st_done] |}.
Proof.
  apply (admission_answer_not_retried planner_url
           (EXECUTE_BATCH (Batch.batch_exec_factory 42 alice_req alice_work 3))
           3 server_error [ok200 st_done]).
  reflexivity.
Defined.

(** ** [invoke_and_await] and [query_result]: polling *)

(** X12. After the admission, [invoke_and_await] returns the first status
    that is finished: while the answers are not-registered ones or
    unfinished statuses it polls again, one sleep of 2 s and one POST of the
    same query per answer, and it leaves the answers after the finished one
    unread. *)
Theorem invoke_and_await_returns_first_finished :
  forall url json_msg n st0 pending r st rest,
    Forall (fun a => keeps_polling a = true) pending ->
    status_code r = 200 -> text r = StatusJson st -> Status.finished st = true ->
    let query := EXECUTE_BATCH_STATUS (Status.set_expectedNumMessages n st0) in
    invoke_and_await url json_msg n (ok200 st0 :: pending ++ r :: rest) =
    {| out := Returned st;
       trace := EvPost url json_msg
                :: flat_map (fun _ => poll_round (2 # 1)%Q url query) (pending ++ [r]);
       unread := rest |}.
Proof.
  intros url json_msg n st0 pending r st rest Hp Hc Ht Hf query.
  rewrite invoke_and_await_accepted_at_once. unfold completion.
  erewrite read_local_returned
    by (apply poll_loop_first_finished; eassumption).
  reflexivity.
Qed.

Lemma invoke_and_await_returns_first_finished_witness :
  let query := EXECUTE_BATCH_STATUS (Status.set_expectedNumMessages 3 st_accepted) in
  invoke_and_await planner_url (EXECUTE_BATCH (Batch.batch_exec_factory 42 alice_req alice_work 3)) 3
    (ok200 st_accepted :: [not_registered 500; ok200 st_running] ++ ok200 st_done :: []) =
  {| out := Returned st_done;
     trace := EvPost planner_url
                     (EXECUTE_BATCH (Batch.batch_exec_factory 42 alice_req alice_work 3))
              :: flat_map (fun _ => poll_round (2 # 1)%Q planner_url query)
                          ([not_registered 500; ok200 st_running] ++ [ok200 st_done]);
     unread := [] |}.
Proof.
  apply (invoke_and_await_returns_first_finished planner_url
           (EXECUTE_BATCH (Batch.batch_exec_factory 42 alice_req alice_work 3)) 3 st_accepted
           [not_registered 500; ok200 st_running] (ok200 st_done) st_done []);
    try reflexivity.
  repeat constructor.
Defined.

(** X13. [query_result] returns the first status that is finished, after
    one sleep of 0.5 s and one POST per answer read; every POST is the
    status query for [app_id] alone (no [expectedNumMessages]). *)
Theorem query_result_returns_first_finished :
  forall app_id url pending r st rest,
    Forall (fun a => keeps_polling a = true) pending ->
    status_code r = 200 -> text r = StatusJson st -> Status.finished st = true ->
    query_result app_id url (pending ++ r :: rest) =
    {| out := Returned st;
       trace := flat_map
                  (fun _ => poll_round (1 # 2)%Q url
                              (EXECUTE_BATCH_STATUS (Status.mk app_id false 0 [])))
                  (pending ++ [r]);
       unread := rest |}.
Proof.
  intros app_id url pending r st rest Hp Hc Ht Hf.
  rewrite query_result_unfold.
  erewrite read_local_returned
    by (apply poll_loop_first_finished; eassumption).
  reflexivity.
Qed.

Lemma query_result_returns_first_finished_witness :
  query_result 42 planner_url ([not_registered 500; ok200 st_running] ++ ok200 st_done :: []) =
  {| out := Returned st_done;
     trace := flat_map
                (fun _ => poll_round (1 # 2)%Q planner_url
                            (EXECUTE_BATCH_STATUS (Status.mk 42 false 0 [])))
                ([not_registered 500; ok200 st_running] ++ [ok200 st_done]);
     unread := [] |}.
Proof.
  apply (query_result_returns_first_finished 42 planner_url
           [not_registered 500; ok200 st_running] (ok200 st_done) st_done []);
    try reflexivity.
  repeat constructor.
Defined.

(** X14. The polling has no bound of its own: as long as every answer is a
    not-registered one or an unfinished status, [query_result] and
    [invoke_and_await] have polled once per answer and once more, and are
    waiting for the next answer. *)
Theorem polling_is_unbounded :
  forall url script,
    Forall (fun a => keeps_polling a = true) script ->
    (forall app_id,
        let r := query_result app_id url script in
        out r = Waiting /\
        polls (trace r) = Datatypes.S (List.length script) /\ unread r = []) /\
    (forall req n st0,
        let r := invoke_and_await url (EXECUTE_BATCH req) n (ok200 st0 :: script) in
        out r = Waiting /\
        polls (trace r) = Datatypes.S (List.length script) /\ unread r = []).
Proof.
  intros url script Hs. split.
  - intros app_id r. subst r. rewrite query_result_unfold.
    erewrite bind_waiting by (apply poll_loop_left_waiting; assumption).
    cbn [out trace unread]. repeat split.
    rewrite polls_app, polls_rounds. cbn. lia.
  - intros req n st0 r. subst r.
    rewrite invoke_and_await_accepted_at_once. unfold completion.
    erewrite bind_waiting by (apply poll_loop_left_waiting; assumption).
    unfold emit. cbn [out trace unread]. repeat split.
    change (polls (?e :: ?t)) with (polls ([e] ++ t)).
    rewrite !polls_app, polls_rounds. cbn. lia.
Qed.

Lemma polling_is_unbounded_witness :
  let r := query_result 42 planner_url [not_registered 500; ok200 st_running] in
  out r = Waiting /\ polls (trace r) = 3%nat /\ unread r = [].
Proof.
  apply (proj1 (polling_is_unbounded planner_url [not_registered 500; ok200 st_running]
                  ltac:(repeat constructor))).
Defined.

(** X15. Whatever the answers, what [query_result] does is a number of
    rounds, each a sleep of 0.5 s followed by a POST of one and the same
    status query, and then at most one log line of a failed POST; so does
    [invoke_and_await] after its admission, with sleeps of 2 s. There is at
    least one round and at most one more than there are answers. *)
Theorem polling_trace_shape :
  (forall app_id url script,
      exists (k : nat) tail,
        trace (query_result app_id url script) =
        List.concat
          (repeat (poll_round (1 # 2)%Q url
                              (EXECUTE_BATCH_STATUS (status_of_app_id app_id))) k)
        ++ tail /\
        (tail = [] \/ exists code body, tail = [EvPrint (PostRequestFailed code body)]) /\
        (1 <= k <= Datatypes.S (List.length script))%nat) /\
  (forall url submission n st0 script,
      exists (k : nat) tail,
        trace (invoke_and_await url submission n (ok200 st0 :: script)) =
        EvPost url submission
        :: List.concat
             (repeat (poll_round (2 # 1)%Q url
                        (EXECUTE_BATCH_STATUS (Status.set_expectedNumMessages n st0))) k)
        ++ tail /\
        (tail = [] \/ exists code body, tail = [EvPrint (PostRequestFailed code body)]) /\
        (1 <= k <= Datatypes.S (List.length script))%nat).
Proof.
  split.
  - intros app_id url script. rewrite query_result_unfold, trace_read_local.
    destruct (poll_loop_trace (1 # 2)%Q url
                (EXECUTE_BATCH_STATUS (status_of_app_id app_id)) None script)
      as (k & tail & Ht & Htail & Hk1 & Hk).
    exists k, tail. repeat split; try assumption.
    destruct (out (poll_loop _ _ _ _ script)); [lia | lia | destruct Hk; lia].
  - intros url submission n st0 script.
    rewrite invoke_and_await_accepted_at_once. unfold completion, emit.
    cbn [trace]. rewrite trace_read_local.
    destruct (poll_loop_trace (2 # 1)%Q url
                (EXECUTE_BATCH_STATUS (Status.set_expectedNumMessages n st0))
                (Some (Status.set_expectedNumMessages n st0)) script)
      as (k & tail & Ht & Htail & Hk1 & Hk).
    exists k, tail. rewrite Ht. repeat split; try assumption.
    destruct (out (poll_loop _ _ _ _ script)); [lia | lia | destruct Hk; lia].
Qed.

(** ** [invoke_wasm] and [invoke_wasm_without_wait] *)

(** X16. The padding loop of [invoke_wasm] only appends: it leaves the
    request's header and messages as they are and adds copies of the
    template message, bound to the request's [appId], until there are
    [expected_num_messages] messages; a request that already has that many
    or more is left unchanged. *)
Theorem pad_messages_appends :
  forall md expected req,
    pad_messages md expected req =
    Req.set_messages
      (Req.messages req
       ++ repeat (message_factory md (Req.appId req))
                 (Z.to_nat (expected - len (Req.messages req))))
      req
    /\ (expected <= len (Req.messages req) -> pad_messages md expected req = req)
    /\ (len (Req.messages req) <= expected ->
        len (Req.messages (pad_messages md expected req)) = expected).
Proof.
  intros md N req. rewrite pad_messages_any. repeat split.
  - intros H. replace (Z.to_nat (N - len (Req.messages req))) with 0%nat by lia.
    cbn [repeat]. rewrite app_nil_r. now destruct req.
  - intros H. cbn [Req.set_messages Req.messages].
    rewrite len_app. unfold len at 2. rewrite repeat_length. lia.
Qed.

Lemma pad_messages_appends_witness :
  len (Req.messages (pad_messages mpi_job 3 (batch_exec_factory 42 alice_req mpi_job 1)))
  = 3.
Proof.
  apply (proj2 (proj2 (pad_messages_appends mpi_job 3
                         (batch_exec_factory 42 alice_req mpi_job 1)))).
  vm_compute. discriminate.
Defined.

(** X17. The pinning loop of [invoke_wasm], on any request: with at least
    as many hosts as messages it returns the request with, in every message
    [i], [groupIdx = i] and [executedHost = host_list[i]] and every other
    field, the header and the number of messages unchanged (hosts beyond
    the messages are ignored); with fewer hosts than messages it raises
    [IndexError]. *)
Theorem pin_hosts_pins_every_message :
  forall hl req,
    ((List.length (Req.messages req) <= List.length hl)%nat ->
     exists req',
       pin_hosts hl req = Ok req' /\
       Req.appId req' = Req.appId req /\
       Req.user req' = Req.user req /\ Req.function req' = Req.function req /\
       List.length (Req.messages req') = List.length (Req.messages req) /\
       forall i m,
         nth_error (Req.messages req) i = Some m ->
         exists h,
           nth_error hl i = Some h /\
           nth_error (Req.messages req') i =
           Some (Msg.set_executedHost h (Msg.set_groupIdx (Z.of_nat i) m))) /\
    ((List.length hl < List.length (Req.messages req))%nat ->
     pin_hosts hl req = Raise IndexError).
Proof.
  intros hl [a u f msgs]. cbn [Req.messages Req.appId Req.user Req.function]. split.
  - intros H. exists (Req.mk a u f (pin_all hl 0 msgs)).
    cbn [Req.messages Req.appId Req.user Req.function].
    repeat split.
    + now apply pin_hosts_any.
    + apply pin_all_length.
    + intros i m Hm. exists (nth i hl EmptyString).
      assert (Hi : (i < List.length hl)%nat).
      { assert (i < List.length msgs)%nat by (apply nth_error_Some; congruence). lia. }
      split; [now apply nth_error_nth'|].
      now rewrite (pin_all_nth hl 0 msgs i m Hm).
  - intros H. now apply pin_hosts_any_short.
Qed.

Lemma pin_hosts_pins_every_message_witness :
  pin_hosts ["10.0.0.1"] (batch_exec_factory 42 alice_req alice_work 2) = Raise IndexError.
Proof.
  apply (proj2 (pin_hosts_pins_every_message ["10.0.0.1"]
                  (batch_exec_factory 42 alice_req alice_work 2))).
  vm_compute. lia.
Defined.

(** X18. Without a request template, both entry points read ["user"] and
    then ["function"] of the message template: a template without one of
    them raises [KeyError] for the first missing key before anything is
    built or sent. With a request template the keys are not read. *)
Theorem missing_template_key_raises :
  forall md,
    (md_user md = None ->
     (forall gid url n dict_out hosts script,
         invoke_wasm gid url md n None dict_out hosts script =
         {| out := Raised (KeyError "user"); trace := []; unread := script |}) /\
     (forall native url app_id n inputs script,
         invoke_wasm_without_wait native url app_id md n None inputs script =
         {| out := Raised (KeyError "user"); trace := []; unread := script |})) /\
    (md_user md <> None -> md_function md = None ->
     (forall gid url n dict_out hosts script,
         invoke_wasm gid url md n None dict_out hosts script =
         {| out := Raised (KeyError "function"); trace := []; unread := script |}) /\
     (forall native url app_id n inputs script,
         invoke_wasm_without_wait native url app_id md n None inputs script =
         {| out := Raised (KeyError "function"); trace := []; unread := script |})) /\
    (forall rd, resolve_req_dict (Some rd) md = Ok rd).
Proof.
  intros md. repeat split.
  - intros gid url n dict_out hosts script. unfold invoke_wasm, resolve_req_dict,
      default_req_dict. rewrite H. reflexivity.
  - intros native url app_id n inputs script. unfold invoke_wasm_without_wait,
      resolve_req_dict, default_req_dict. rewrite H. reflexivity.
  - intros gid url n dict_out hosts script. unfold invoke_wasm, resolve_req_dict,
      default_req_dict. destruct (md_user md); [|congruence]. rewrite H0. reflexivity.
  - intros native url app_id n inputs script. unfold invoke_wasm_without_wait,
      resolve_req_dict, default_req_dict.
    destruct (md_user md); [|congruence]. rewrite H0. reflexivity.
Qed.

Lemma missing_template_key_raises_witness :
  invoke_wasm 42 planner_url
    {| md_user := None; md_function := Some "work"; md_mpi_world_size := None |}
    3 None false None [ok200 st_accepted] =
  {| out := Raised (KeyError "user"); trace := []; unread := [ok200 st_accepted] |}.
Proof.
  apply (proj1 (proj1 (missing_template_key_raises
                         {| md_user := None; md_function := Some "work";
                            md_mpi_world_size := None |}) eq_refl)).
Defined.

(** X19. [invoke_wasm_without_wait] never supplies chain-linkage
    identifiers, so: asked for at least one message, it raises before it
    posts anything; every batch it does post has no message and carries the
    caller's [app_id]; and whenever it returns, it returns that [app_id]. *)
Theorem fire_and_forget_submits_only_empty_batches :
  forall native url app_id md n rd inputs script,
    let r := invoke_wasm_without_wait native url app_id md n rd inputs script in
    (1 <= n -> trace r = [] /\ exists e, out r = Raised e) /\
    (forall x, out r = Returned x -> x = app_id) /\
    (forall e, In e (trace r) -> is_post e = true ->
               exists req, e = EvPost url (EXECUTE_BATCH req) /\
                           Req.appId req = app_id /\ Req.messages req = []).
Proof.
  intros native url app_id md n rd inputs script r. subst r.
  unfold invoke_wasm_without_wait.
  destruct (resolve_req_dict rd md) as [rd'|e] eqn:Erd; cbn [lift].
  2:{ rewrite bind_raise. cbn. repeat split; eauto; try discriminate.
      intros e' []. }
  rewrite bind_ret.
  destruct (batch_exec_input_factory native rd' app_id md n inputs None)
    as [req|e] eqn:Ereq; cbn [lift].
  2:{ rewrite bind_raise. cbn. repeat split; eauto; try discriminate.
      intros e' []. }
  rewrite bind_ret.
  destruct (batch_exec_input_factory_returned _ _ _ _ _ _ _ req Ereq) as [Hsome _].
  pose proof (batch_exec_input_factory_built _ _ _ _ _ _ _ req Ereq)
    as (Hid & _ & _ & Hlen & _).
  assert (Hn : n <= 0).
  { destruct (Z.le_gt_cases n 0) as [H|H]; [exact H|].
    exfalso. apply Hsome; [lia | reflexivity]. }
  assert (Hempty : Req.messages req = []).
  { apply length_zero_iff_nil. lia. }
  pose proof (invoke_without_wait_posts url (EXECUTE_BATCH req) script) as Hp.
  unfold bind.
  destruct (invoke_without_wait url (EXECUTE_BATCH req) script) as [o tr u] eqn:Er.
  cbn [out trace unread] in *. split; [intros H1; lia|].
  destruct o as [[]| |]; cbn [out trace unread emit ret].
  - split; [congruence|]. intros e He Hpost. rewrite app_nil_r in He.
    exists req. repeat split; try assumption.
    exact (proj1 (Forall_forall _ _) Hp e He Hpost).
  - split; [discriminate|]. intros e' He Hpost.
    exists req. repeat split; try assumption.
    exact (proj1 (Forall_forall _ _) Hp e' He Hpost).
  - split; [discriminate|]. intros e' He Hpost.
    exists req. repeat split; try assumption.
    exact (proj1 (Forall_forall _ _) Hp e' He Hpost).
Qed.

Lemma fire_and_forget_submits_only_empty_batches_witness :
  let r := invoke_wasm_without_wait Struct.little planner_url 42 alice_work 3 None
             (Some [[]; []; []]) [ok200 st_accepted] in
  trace r = [] /\ exists e, out r = Raised e.
Proof.
  apply (proj1 (fire_and_forget_submits_only_empty_batches Struct.little planner_url 42
                  alice_work 3 None (Some [[]; []; []]) [ok200 st_accepted])).
  lia.
Defined.

Ltac net_done :=
  cbn; repeat split; intros; try lia; try discriminate; eauto.

(** X20. Whatever its arguments and whatever the endpoint answers,
    [invoke_wasm] posts at most one preload and at most 10 submissions; it
    posts no preload without a host list, and a preload it posts is the
    first thing it does. *)
Theorem invoke_wasm_network_use :
  forall gid url md n rd dict_out hosts script,
    let r := invoke_wasm gid url md n rd dict_out hosts script in
    (preloads (trace r) <= 1)%nat /\
    (submissions (trace r) <= 10)%nat /\
    (hosts = None -> preloads (trace r) = 0%nat) /\
    (preloads (trace r) = 1%nat ->
     exists preload tl, trace r = EvPost url (PRELOAD_SCHEDULING_DECISION preload) :: tl).
Proof.
  intros gid url md n rd dict_out hosts script r. subst r.
  destruct (resolve_req_dict rd md) as [rd'|e] eqn:Erd.
  2:{ unfold invoke_wasm. rewrite Erd. cbn [lift]. rewrite bind_raise. net_done. }
  assert (Hplain : forall s,
             preloads (trace (invoke_wasm gid url md n rd dict_out None s)) = 0%nat /\
             (submissions (trace (invoke_wasm gid url md n rd dict_out None s)) <= 10)%nat).
  { intros s. rewrite (invoke_wasm_plain _ _ _ _ _ rd' _ _ Erd).
    assert (Ht : trace (bind (invoke_and_await url
                                (EXECUTE_BATCH (batch_exec_factory gid rd' md n))
                                (expected_num_messages md n))
                             (fun result => ret (wrap dict_out result)) s)
                 = trace (invoke_and_await url
                            (EXECUTE_BATCH (batch_exec_factory gid rd' md n))
                            (expected_num_messages md n) s)).
    { unfold bind. destruct (out (invoke_and_await _ _ _ s)); cbn; try reflexivity.
      apply app_nil_r. }
    rewrite Ht. split; [apply invoke_and_await_no_preload|].
    apply invoke_and_await_submissions_bound. }
  destruct hosts as [hl|].
  2:{ destruct (Hplain script) as [H0 H10]. rewrite H0.
      repeat split; intros; try lia; try assumption; try discriminate. }
  destruct (Z.eq_dec (len hl) (expected_num_messages md n)) as [HN|HN].
  2:{ rewrite (invoke_wasm_host_list_mismatch _ _ _ _ _ rd' _ _ Erd _ HN). net_done. }
  destruct (Z.le_gt_cases n (expected_num_messages md n)) as [Hn|Hn].
  2:{ rewrite (invoke_wasm_more_messages_than_hosts _ _ _ _ _ rd' _ _ Erd _ HN)
        by lia. net_done. }
  destruct script as [|a rest].
  { rewrite (invoke_wasm_preload_no_answer _ _ _ _ _ rd' _ _ Erd HN Hn). net_done. }
  destruct (Z.eq_dec (status_code a) 200) as [Ha|Ha].
  - rewrite (invoke_wasm_preload_accepted _ _ _ _ _ rd' _ _ Erd _ _ HN Hn Ha).
    destruct (Hplain rest) as [H0 H10]. unfold emit. cbn [trace app].
    unfold preloads, submissions in *. cbn [filter is_preload is_submission List.length].
    rewrite H0. repeat split; intros; try lia; try discriminate; eauto.
  - rewrite (invoke_wasm_preload_rejected _ _ _ _ _ rd' _ _ Erd _ _ HN Hn Ha). net_done.
Qed.

Lemma invoke_wasm_network_use_witness :
  preloads (trace (invoke_wasm 42 planner_url alice_work 3 None false None
                               [ok200 st_accepted; ok200 st_done])) = 0%nat.
Proof.
  destruct (invoke_wasm_network_use 42 planner_url alice_work 3 None false None
              [ok200 st_accepted; ok200 st_done]) as (_ & _ & H & _).
  apply H. reflexivity.
Defined.
